(** * bytestore: a tiny evented state container (src/index.js)

    A shallow embedding of [createStore] and of the operations of the store
    it returns ([setState], [on], [subscribe], [getState]), together with
    the properties of the notification engine.

    JavaScript objects and arrays are handled by reference: state objects
    live in a heap of objects, arrays of observers in a heap of arrays, so
    that an object or an array has an identity that outlives a call and
    that several variables can share.  The three closure variables of
    [createStore] ([state], [listeners], [onListeners]) are fields of a
    [world] record that every operation threads.  Observer callbacks are
    programs of a small command language whose commands are the calls a
    callback can make on the store; running them needs fuel, since a
    callback may call [setState] again. *)

From stdpp Require Import gmap strings list fin_maps pretty.
From Stdlib Require Import ZArith.

Open Scope string_scope.
Open Scope list_scope.

(** ** Values and objects *)

Abbreviation loc := nat (only parsing).

(** JavaScript values: the primitives the store can be handed, and
    references to heap objects.  Numbers are the integers and NaN. *)
Inductive value : Type :=
| VUndefined
| VNull
| VBool (b : bool)
| VNum (n : Z)
| VNaN
| VStr (s : string)
| VRef (l : loc).

(** ToBoolean, as used by [||] and [? :]. *)
Definition truthy (v : value) : bool :=
  match v with
  | VUndefined | VNull | VNaN => false
  | VBool b => b
  | VNum n => negb (n =? 0)%Z
  | VStr s => negb (String.eqb s "")
  | VRef _ => true
  end.

(** An object is the list of its own enumerable properties, in enumeration
    order.  The prototype chain is not modelled. *)
Abbreviation obj := (list (string * value)) (only parsing).
Abbreviation heap_t := (list (list (string * value))) (only parsing).

Fixpoint obj_get (o : obj) (k : string) : option value :=
  match o with
  | [] => None
  | (k', v) :: o' => if String.eqb k' k then Some v else obj_get o' k
  end.

(** [o[k] = v]: overwrite in place, or add a new last property. *)
Fixpoint obj_set (o : obj) (k : string) (v : value) : obj :=
  match o with
  | [] => [(k, v)]
  | (k', v') :: o' =>
      if String.eqb k' k then (k', v) :: o' else (k', v') :: obj_set o' k v
  end.

(** [Object.keys(o)]. *)
Definition obj_keys (o : obj) : list string := map fst o.

(** The characters of a string primitive, as index properties. *)
Fixpoint str_props (i : nat) (s : string) : obj :=
  match s with
  | EmptyString => []
  | String c s' => (pretty i, VStr (String c EmptyString)) :: str_props (S i) s'
  end.

(** The object at [l]; a location that holds no object reads as an empty
    object. *)
Definition heap_obj (h : heap_t) (l : loc) : obj := default [] (h !! l).

(** Own enumerable properties of a value: those of the object it refers to,
    the characters of a string, none for the other primitives. *)
Definition own_props (h : heap_t) (v : value) : obj :=
  match v with
  | VRef l => heap_obj h l
  | VStr s => str_props 0 s
  | _ => []
  end.

(** [v[k]] *)
Definition get_prop (h : heap_t) (v : value) (k : string) : value :=
  default VUndefined (obj_get (own_props h v) k).

(** Modelled from the spec: the body of [assign], on the contents of the
    two objects.  "For each key in update, set/overwrite that key's value
    in the copy": [dst[i] = src[i]] for every key [i] of [src], in the
    order of the keys of [src]. *)
Definition copy_props (src dst : obj) : obj :=
  foldl (fun o i => obj_set o i (default VUndefined (obj_get src i)))
        dst (obj_keys src).

(** Modelled from the spec: [assign] is imported from [./util], which is
    not part of the sources.  [assign(target, props)] writes every own
    property of [props] into the object [target], leaves [props] and every
    other object as they are, and returns [target]. *)
Definition assign (target : loc) (props : value) (h : heap_t) : heap_t :=
  <[target := copy_props (own_props h props) (heap_obj h target)]> h.

(** ** Callbacks *)

(** What a callback may do with the store.  [CSetState] passes an object
    that already exists, [CSetStateNew] an object literal. *)
Inductive cmd : Type :=
| CSetState (update : loc) (overwrite : value)
| CSetStateNew (update : obj) (overwrite : value)
| CSubscribe (listener : fn) (effect : option fn)
| COn (stateSlice : string) (callback : fn) (effect : option fn)
| CGetState
| CThrow (v : value)
with fn : Type :=
| Fn (name : string) (body : list cmd).

Definition fn_name (f : fn) : string := match f with Fn s _ => s end.
Definition fn_body (f : fn) : list cmd := match f with Fn _ b => b end.

(** [const noop = () => {}] *)
Definition noop : fn := Fn "noop" [].

(** [{ _li: callback, _ef: effect }] *)
Record observer : Type := Observer { _li : fn; _ef : fn }.

(** ** The world: two heaps, the closure variables of [createStore], a log *)

Inductive slot : Type :=
| Whole (i : nat)                 (* listeners[i] *)
| Slice (k : string) (j : nat).   (* onListeners.get(k)[j] *)

Inductive role : Type := OnChange | OnEffect.   (* _li, _ef *)

Inductive event : Type :=
| Call (s : slot) (r : role) (f : string) (arg : value)
| Got (v : value)       (* a callback read getState() *)
| Threw (v : value).

(** Arrays of observers are objects too: a variable holds a reference to an
    array, and [push] changes the array that every such reference sees. *)
Record world : Type := World {
  heap : heap_t;                        (* the objects *)
  arrays : list (list observer);        (* the arrays of observers *)
  state : value;                        (* state *)
  listeners : loc;                      (* let listeners = [] *)
  onListeners : gmap string loc;        (* let onListeners = new Map() *)
  trace : list event
}.

Definition set_heap (h : heap_t) (w : world) : world :=
  World h (arrays w) (state w) (listeners w) (onListeners w) (trace w).
Definition set_arrays (a : list (list observer)) (w : world) : world :=
  World (heap w) a (state w) (listeners w) (onListeners w) (trace w).
Definition set_state (v : value) (w : world) : world :=
  World (heap w) (arrays w) v (listeners w) (onListeners w) (trace w).
Definition set_onListeners (m : gmap string loc) (w : world) : world :=
  World (heap w) (arrays w) (state w) (listeners w) m (trace w).
Definition add_event (e : event) (w : world) : world :=
  World (heap w) (arrays w) (state w) (listeners w) (onListeners w) (trace w ++ [e]).

(** The array that [a] refers to. *)
Definition array_at (w : world) (a : loc) : list observer :=
  default [] (arrays w !! a).

(** [a.push(o)] *)
Definition push (a : loc) (o : observer) (w : world) : world :=
  set_arrays (<[a := array_at w a ++ [o]]> (arrays w)) w.

(** The array of the whole-state observers, and the array of the slice
    observers of a key (none when the map has no entry). *)
Definition whole_observers (w : world) : list observer :=
  array_at w (listeners w).
Definition slice_observers (w : world) (k : string) : list observer :=
  match onListeners w !! k with
  | Some a => array_at w a
  | None => []
  end.

(** How a computation ends. *)
Inductive completion : Type :=
| Normal
| Throw (v : value)
| Starved.              (* out of fuel *)

Abbreviation M := (world -> completion * world) (only parsing).

Definition skip : M := fun w => (Normal, w).
Definition starve : M := fun w => (Starved, w).
Definition log (e : event) : M := fun w => (Normal, add_event e w).
Definition throw (v : value) : M := fun w => (Throw v, add_event (Threw v) w).
Definition seq (a b : M) : M :=
  fun w => match a w with
           | (Normal, w1) => b w1
           | r => r
           end.

Declare Scope store_scope.
Delimit Scope store_scope with store.
Notation "a ;; b" := (seq a b)
  (at level 100, b at level 200, right associativity) : store_scope.
Open Scope store_scope.

(** The TypeError of reading a property of [undefined]. *)
Definition TypeError : value := VStr "TypeError".

(** ** The store *)

(** [createStore(state)]: [listeners = []], [onListeners = new Map()],
    [state = state || {}]. *)
Definition createStore (initial : value) (h : heap_t) : world :=
  if truthy initial
  then World h [[]] initial 0 ∅ []
  else World (h ++ [[]]) [[]] (VRef (length h)) 0 ∅ [].

(** [getState()] *)
Definition getState (w : world) : value := state w.

(** [subscribe(listener, effect = noop)] *)
Definition subscribe (listener : fn) (effect : option fn) : M :=
  fun w =>
    let _listener := Observer listener (default noop effect) in
    (Normal, push (listeners w) _listener w).

(** [on(stateSlice, callback, effect = noop)]: a key that has no array yet
    gets a new empty one; then [_call] is pushed onto the array of the
    key. *)
Definition on (stateSlice : string) (callback : fn) (effect : option fn) : M :=
  fun w =>
    let _call := Observer callback (default noop effect) in
    match onListeners w !! stateSlice with
    | Some a => (Normal, push a _call w)
    | None =>
        let a := length (arrays w) in
        (Normal,
         push a _call
              (set_onListeners (<[stateSlice := a]> (onListeners w))
                               (set_arrays (arrays w ++ [[]]) w)))
    end.

(** [state = overwrite ? update : assign(assign({}, state), update)] *)
Definition update_state (update : loc) (overwrite : value) (w : world) : world :=
  if truthy overwrite
  then set_state (VRef update) w
  else
    let fresh := length (heap w) in
    let h0 := heap w ++ [[]] in
    let h1 := assign fresh (state w) h0 in
    let h2 := assign fresh (VRef update) h1 in
    set_state (VRef fresh) (set_heap h2 w).

Section Notify.
(** How a callback is applied to its argument. *)
Variable call : fn -> value -> M.

Definition invoke (s : slot) (r : role) (f : fn) (arg : value) : M :=
  log (Call s r (fn_name f) arg) ;; call f arg.

(** [for (let i=0; i<currentListeners.length; i++) { ... }]: the length and
    the elements are read from the array that [currentListeners] refers
    to, at every iteration. *)
Fixpoint notify_listeners (n : nat) (currentListeners : loc) (i : nat) : M :=
  fun w =>
    match n with
    | 0 => starve w
    | S n' =>
        match array_at w currentListeners !! i with
        | None => skip w
        | Some o =>
            (invoke (Whole i) OnChange (_li o) (state w) ;;
             (fun w1 =>
                match array_at w1 currentListeners !! i with
                | Some o1 => invoke (Whole i) OnEffect (_ef o1) (state w1) w1
                | None => throw TypeError w1
                end) ;;
             notify_listeners n' currentListeners (S i)) w
        end
    end.

(** [for (let k=0; k<listeners.length; k++) { ... }], where [listeners] is
    the array of [_key]. *)
Fixpoint notify_slice (n : nat) (_key : string) (listeners : loc) (k : nat) : M :=
  fun w =>
    match n with
    | 0 => starve w
    | S n' =>
        match array_at w listeners !! k with
        | None => skip w
        | Some o =>
            (invoke (Slice _key k) OnChange (_li o) (get_prop (heap w) (state w) _key) ;;
             (fun w1 =>
                match array_at w1 listeners !! k with
                | Some o1 =>
                    invoke (Slice _key k) OnEffect (_ef o1)
                           (get_prop (heap w1) (state w1) _key) w1
                | None => throw TypeError w1
                end) ;;
             notify_slice n' _key listeners (S k)) w
        end
    end.

(** The loop over [stateChanged = Object.keys(update)]:
    [if (onListeners.has(_key)) { let listeners = onListeners.get(_key); ... }] *)
Fixpoint notify_slices (n : nat) (stateChanged : list string) : M :=
  match stateChanged with
  | [] => skip
  | _key :: rest =>
      (fun w =>
         match onListeners w !! _key with
         | Some listeners => notify_slice n _key listeners 0 w
         | None => skip w
         end) ;;
      notify_slices n rest
  end.

(** [setState(update, overwrite)].  [let currentListeners = listeners]
    copies the reference, not the array. *)
Definition setState (n : nat) (update : loc) (overwrite : value) : M :=
  (fun w => skip (update_state update overwrite w)) ;;
  (fun w => let currentListeners := listeners w in
            notify_listeners n currentListeners 0 w) ;;
  (fun w => let stateChanged := obj_keys (heap_obj (heap w) update) in
            notify_slices n stateChanged w).

Definition exec_cmd (n : nat) (c : cmd) : M :=
  match c with
  | CSetState update overwrite => setState n update overwrite
  | CSetStateNew update overwrite =>
      fun w => setState n (length (heap w)) overwrite
                        (set_heap (heap w ++ [update]) w)
  | CSubscribe listener effect => subscribe listener effect
  | COn stateSlice callback effect => on stateSlice callback effect
  | CGetState => fun w => log (Got (getState w)) w
  | CThrow v => throw v
  end.

Fixpoint exec_cmds (n : nat) (cs : list cmd) : M :=
  match cs with
  | [] => skip
  | c :: cs' => exec_cmd n c ;; exec_cmds n cs'
  end.
End Notify.

(** Applying a callback runs its body; calls nest at most [n] deep. *)
Fixpoint apply_fn (n : nat) (f : fn) (arg : value) : M :=
  match n with
  | 0 => starve
  | S n' => exec_cmds (apply_fn n') n' (fn_body f)
  end.

(** ** Classes of callbacks *)

Definition is_read (c : cmd) : bool :=
  match c with
  | CGetState => true
  | _ => false
  end.

(** An inert callback only reads the store. *)
Definition inert (f : fn) : bool := forallb is_read (fn_body f).

(** A static callback never calls [setState], and neither does any callback
    it registers. *)
Fixpoint static (f : fn) : bool :=
  match f with
  | Fn _ body => forallb cmd_static body
  end
with cmd_static (c : cmd) : bool :=
  match c with
  | CSetState _ _ | CSetStateNew _ _ => false
  | CSubscribe listener effect => static listener && from_option static true effect
  | COn _ callback effect => static callback && from_option static true effect
  | CGetState | CThrow _ => true
  end.

Definition obs_all (p : fn -> bool) (o : observer) : bool := p (_li o) && p (_ef o).

(** Every whole-state observer, and every slice observer of a key in [ks],
    is made of callbacks that satisfy [p]. *)
Definition observers_all (p : fn -> bool) (ks : list string) (w : world) : bool :=
  forallb (obs_all p) (whole_observers w)
  && forallb (fun k => forallb (obs_all p) (slice_observers w k)) ks.

(** ** The log of a fan-out pass *)

Definition add_events (evs : list event) (w : world) : world :=
  World (heap w) (arrays w) (state w) (listeners w) (onListeners w) (trace w ++ evs).

(** What an inert callback logs when the state is [s]. *)
Definition reads (f : fn) (s : value) : list event :=
  map (fun _ => Got s) (fn_body f).

(** One observer: onChange, then onEffect, both on [arg]. *)
Definition obs_events (sl : slot) (arg s : value) (o : observer) : list event :=
  Call sl OnChange (fn_name (_li o)) arg :: reads (_li o) s
  ++ Call sl OnEffect (fn_name (_ef o)) arg :: reads (_ef o) s.

(** An array of observers, in index order from [i]. *)
Fixpoint list_events (mk : nat -> slot) (arg s : value) (i : nat)
    (os : list observer) : list event :=
  match os with
  | [] => []
  | o :: os' => obs_events (mk i) arg s o ++ list_events mk arg s (S i) os'
  end.

(** The first phase: the whole-state observers [os] on the state [s]. *)
Definition whole_events (s : value) (os : list observer) : list event :=
  list_events Whole s s 0 os.

(** The second phase: for each key [k] of [ks] in order, the slice
    observers [slice k] on [s[k]]. *)
Definition slice_events (h : heap_t) (s : value)
    (slice : string -> list observer) (ks : list string) : list event :=
  flat_map (fun k => list_events (Slice k) (get_prop h s k) s 0 (slice k)) ks.

(** Fuel that lets every loop of one pass over inert observers finish. *)
Definition fuel_for (ks : list string) (w : world) : nat :=
  S (foldr Nat.max (length (whole_observers w))
           (map (fun k => length (slice_observers w k)) ks)).

(** The events that follow the first [n]. *)
Definition since (n : nat) (w : world) : list event := drop n (trace w).

(** The events one pass may log when it starts with heap [h] and state
    [s] on an update with keys [ks] and no callback calls [setState]. *)
Definition fan_event (h : heap_t) (s : value) (ks : list string) (e : event) : Prop :=
  match e with
  | Call (Whole _) _ _ arg => arg = s
  | Call (Slice k _) _ _ arg => k ∈ ks /\ arg = get_prop h s k
  | Got v => v = s
  | Threw _ => True
  end.

(** [w'] is reached from [w] by such a pass, or by a part of one. *)
Definition pass (ks : list string) (w w' : world) : Prop :=
  observers_all static ks w' = true
  /\ state w' = state w
  /\ heap w' = heap w
  /\ listeners w' = listeners w
  /\ (forall k a, onListeners w !! k = Some a -> onListeners w' !! k = Some a)
  /\ exists evs, trace w' = trace w ++ evs
                /\ Forall (fan_event (heap w) (state w) ks) evs.

Definition passes (ks : list string) (a : M) : Prop :=
  forall w, observers_all static ks w = true -> pass ks w (a w).2.

(** The steps that every run is made of. *)
Inductive basic : world -> completion * world -> Prop :=
| basic_skip w : basic w (skip w)
| basic_starve w : basic w (starve w)
| basic_call sl r f arg w : basic w (log (Call sl r f arg) w)
| basic_got w : basic w (log (Got (getState w)) w)
| basic_throw v w : basic w (throw v w)
| basic_update update overwrite w : basic w (Normal, update_state update overwrite w)
| basic_alloc (o : obj) w : basic w (Normal, set_heap (heap w ++ [o]) w)
| basic_subscribe listener effect w : basic w (subscribe listener effect w)
| basic_on stateSlice callback effect w : basic w (on stateSlice callback effect w).

(** ** Example stores *)

Definition W : fn := Fn "W" [CGetState].
Definition L : fn := Fn "L" [].

(** Objects [{a:'b', c:'d'}], [{a:1}], [{b:2}] and [{}]. *)
Definition doc_heap : heap_t :=
  [[("a", VStr "b"); ("c", VStr "d")]; [("a", VNum 1)]; [("b", VNum 2)]; []].

(** [store = createStore({a:'b', c:'d'}); store.subscribe(W); store.on('a', L)] *)
Definition doc_store : world :=
  ((subscribe W None ;; on "a" L None) (createStore (VRef 0) doc_heap)).2.

(** A store whose second whole-state observer throws. *)
Definition faulty_store : world :=
  ((subscribe (Fn "A" []) None ;;
    subscribe (Fn "B" [CThrow (VStr "boom")]) None ;;
    subscribe (Fn "C" []) None ;;
    on "a" L None) (createStore (VRef 0) doc_heap)).2.

(** A store whose only whole-state observer subscribes another one when it
    is notified. *)
Definition growing_store : world :=
  (subscribe (Fn "W" [CSubscribe (Fn "N" []) None]) None
     (createStore (VRef 0) doc_heap)).2.

(** ** Well-formed stores, and what runs preserve *)

(** The references of a store are in order: [listeners] and the arrays of
    [onListeners] exist, no key shares its array with [listeners], and two
    keys never share an array. *)
Definition wf (w : world) : bool :=
  bool_decide (listeners w < length (arrays w))
  && forallb (fun ka => bool_decide (ka.2 < length (arrays w))
                        && negb (Nat.eqb ka.2 (listeners w)))
             (map_to_list (onListeners w))
  && bool_decide (NoDup (map_to_list (onListeners w)).*2).

(** [wf] as a proposition. *)
Definition refs_ok (w : world) : Prop :=
  listeners w < length (arrays w)
  /\ (forall k a, onListeners w !! k = Some a ->
                  a < length (arrays w) /\ a <> listeners w)
  /\ (forall k k' a, onListeners w !! k = Some a ->
                     onListeners w !! k' = Some a -> k = k').

(** [w'] comes after [w]: the variables [listeners] and the entries of
    [onListeners] still refer to the same arrays, and arrays, objects and
    the log have only been added to. *)
Definition grows (w w' : world) : Prop :=
  listeners w' = listeners w
  /\ (forall k a, onListeners w !! k = Some a -> onListeners w' !! k = Some a)
  /\ (forall a, array_at w a `prefix_of` array_at w' a)
  /\ heap w `prefix_of` heap w'
  /\ trace w `prefix_of` trace w'.



(** Both callbacks of the observer [o] have been called for the slot
    [sl] since the log had [n] events. *)
Definition notified (sl : slot) (o : observer) (n : nat) (w' : world) : Prop :=
  (exists arg, Call sl OnChange (fn_name (_li o)) arg ∈ since n w')
  /\ (exists arg, Call sl OnEffect (fn_name (_ef o)) arg ∈ since n w').

(** A callback that starts by calling [setState]. *)
Definition reenters (f : fn) : bool :=
  match fn_body f with
  | CSetState _ _ :: _ | CSetStateNew _ _ :: _ => true
  | _ => false
  end.

(** A store whose second whole-state observer calls [setState({b: 2})]
    whenever it is notified. *)
Definition looping_store : world :=
  ((subscribe W None ;;
    subscribe (Fn "R" [CSetStateNew [("b", VNum 2)] VUndefined]) None)
     (createStore (VRef 0) doc_heap)).2.

(** A store whose only slice observer of ["a"] registers another observer
    of ["a"] when it is notified. *)
Definition growing_slice_store : world :=
  (on "a" (Fn "L" [COn "a" (Fn "N" []) None]) None
      (createStore (VRef 0) doc_heap)).2.

(** ** Basic facts *)

Lemma add_events_nil w : add_events [] w = w.
Proof. destruct w; unfold add_events; simpl. by rewrite app_nil_r. Qed.

Lemma add_event_events e w : add_event e w = add_events [e] w.
Proof. reflexivity. Qed.

Lemma add_events_app a b w : add_events b (add_events a w) = add_events (a ++ b) w.
Proof. unfold add_events; simpl. by rewrite app_assoc. Qed.

Lemma array_at_add_events evs w a : array_at (add_events evs w) a = array_at w a.
Proof. reflexivity. Qed.

Lemma slice_observers_add_events evs w k :
  slice_observers (add_events evs w) k = slice_observers w k.
Proof. reflexivity. Qed.

Lemma seq_normal (a b : world -> completion * world) w w1 :
  a w = (Normal, w1) -> (a ;; b) w = b w1.
Proof. unfold seq. by intros ->. Qed.

Lemma obj_get_set o k v k' :
  obj_get (obj_set o k v) k' = if String.eqb k k' then Some v else obj_get o k'.
Proof.
  induction o as [|[k0 v0] o IH]; simpl.
  - reflexivity.
  - destruct (String.eqb k0 k) eqn:E0; simpl.
    + apply String.eqb_eq in E0 as ->. by destruct (String.eqb k k').
    + rewrite IH. destruct (String.eqb k0 k') eqn:E1; [|done].
      apply String.eqb_eq in E1 as ->. by rewrite String.eqb_sym, E0.
Qed.

Lemma obj_get_keys o k : obj_get o k = None <-> k ∉ obj_keys o.
Proof.
  induction o as [|[k0 v0] o IH]; simpl.
  - split; [intros _; apply not_elem_of_nil | done].
  - rewrite not_elem_of_cons. destruct (String.eqb k0 k) eqn:E.
    + apply String.eqb_eq in E as ->. split; [done | by intros []].
    + apply String.eqb_neq in E. rewrite IH.
      split; [intros Hk; split; [by intros -> | done] | by intros [_ Hk]].
Qed.

Lemma obj_get_foldl (f : string -> value) (ks : list string) o k :
  obj_get (foldl (fun o i => obj_set o i (f i)) o ks) k
  = if bool_decide (k ∈ ks) then Some (f k) else obj_get o k.
Proof.
  revert o. induction ks as [|i ks IH]; intros o; simpl.
  - reflexivity.
  - rewrite IH. case_bool_decide as Hin.
    + rewrite bool_decide_eq_true_2; [done | by right].
    + rewrite obj_get_set. destruct (String.eqb i k) eqn:E.
      * apply String.eqb_eq in E as ->.
        rewrite bool_decide_eq_true_2; [done | by left].
      * apply String.eqb_neq in E.
        rewrite bool_decide_eq_false_2; [done |].
        rewrite elem_of_cons. intros [Hk|Hk]; [by symmetry in Hk | done].
Qed.

Lemma obj_get_copy src dst k :
  obj_get (copy_props src dst) k
  = match obj_get src k with
    | Some v => Some v
    | None => obj_get dst k
    end.
Proof.
  unfold copy_props. rewrite obj_get_foldl. case_bool_decide as Hin.
  - destruct (obj_get src k) eqn:E; [done |].
    apply obj_get_keys in E. contradiction.
  - apply obj_get_keys in Hin. by rewrite Hin.
Qed.

Lemma lookup_app_nil_default {A} (h : list (list A)) l :
  default [] ((h ++ [[]]) !! l) = default [] (h !! l).
Proof.
  destruct (decide (l < length h)) as [Hlt|Hge].
  - by rewrite lookup_app_l.
  - rewrite (lookup_ge_None_2 h) by lia.
    destruct (decide (l = length h)) as [->|Hne].
    + by rewrite list_lookup_middle.
    + rewrite lookup_ge_None_2; [done |]. rewrite length_app. simpl. lia.
Qed.

Lemma heap_obj_app_nil (h : list (list (string * value))) l :
  heap_obj (h ++ [[]]) l = heap_obj h l.
Proof. apply lookup_app_nil_default. Qed.

Lemma own_props_app_nil (h : list (list (string * value))) v :
  own_props (h ++ [[]]) v = own_props h v.
Proof. destruct v; simpl; try done. apply heap_obj_app_nil. Qed.

Lemma assign_fresh (h : list (list (string * value))) o props :
  assign (length h) props (h ++ [o])
  = h ++ [copy_props (own_props (h ++ [o]) props) o].
Proof.
  unfold assign, heap_obj. rewrite list_lookup_middle by done. simpl.
  rewrite insert_app_r_alt by lia. by rewrite Nat.sub_diag.
Qed.

(** The object that a merging [setState] builds from the properties [S] of
    the state and the update object [U]. *)
Lemma update_state_merge w update overwrite (U : list (string * value)) :
  truthy overwrite = false ->
  heap w !! update = Some U ->
  update_state update overwrite w
  = set_state (VRef (length (heap w)))
      (set_heap (heap w ++ [copy_props U (copy_props (own_props (heap w) (state w)) [])]) w).
Proof.
  intros Hf HU. unfold update_state. rewrite Hf.
  rewrite assign_fresh, own_props_app_nil, assign_fresh. simpl.
  unfold heap_obj. rewrite lookup_app_l by (by eapply lookup_lt_Some).
  by rewrite HU.
Qed.

Lemma update_state_overwrite w update overwrite :
  truthy overwrite = true ->
  update_state update overwrite w = set_state (VRef update) w.
Proof. intros Ht. unfold update_state. by rewrite Ht. Qed.

Lemma update_state_frame w update overwrite :
  arrays (update_state update overwrite w) = arrays w
  /\ listeners (update_state update overwrite w) = listeners w
  /\ onListeners (update_state update overwrite w) = onListeners w
  /\ trace (update_state update overwrite w) = trace w.
Proof. unfold update_state. by destruct (truthy overwrite). Qed.

Lemma update_state_observers w update overwrite :
  whole_observers (update_state update overwrite w) = whole_observers w
  /\ forall k, slice_observers (update_state update overwrite w) k = slice_observers w k.
Proof.
  destruct (update_state_frame w update overwrite) as (Ha & Hl & Ho & _).
  unfold whole_observers, slice_observers, array_at.
  by rewrite Ha, Hl, Ho.
Qed.

(** Objects that exist keep their contents across the assignment. *)
Lemma update_state_heap w update overwrite :
  heap w `prefix_of` heap (update_state update overwrite w).
Proof.
  unfold update_state. destruct (truthy overwrite); simpl; [done |].
  rewrite assign_fresh, assign_fresh. by apply prefix_app_r.
Qed.

(** ** Inert callbacks: the exact log of a pass *)

Lemma exec_reads call n cs w :
  forallb is_read cs = true ->
  exec_cmds call n cs w = (Normal, add_events (map (fun _ => Got (state w)) cs) w).
Proof.
  revert w. induction cs as [|c cs IH]; intros w Hcs; simpl.
  - by rewrite add_events_nil.
  - apply andb_prop in Hcs as [Hc Hcs]. destruct c; try discriminate.
    simpl. unfold seq, log. rewrite IH by done.
    by rewrite add_event_events, add_events_app.
Qed.

Lemma apply_inert n f arg w :
  inert f = true ->
  apply_fn (S n) f arg w = (Normal, add_events (reads f (state w)) w).
Proof. intros Hf. simpl. by apply exec_reads. Qed.

Lemma invoke_inert n sl r f arg w :
  inert f = true ->
  invoke (apply_fn (S n)) sl r f arg w
  = (Normal, add_events (Call sl r (fn_name f) arg :: reads f (state w)) w).
Proof.
  intros Hf. unfold invoke, seq, log. rewrite apply_inert by done.
  by rewrite add_event_events, add_events_app.
Qed.

Lemma notify_listeners_inert m a rest : forall n i w,
  drop i (array_at w a) = rest ->
  forallb (obs_all inert) rest = true ->
  length rest < n ->
  notify_listeners (apply_fn (S m)) n a i w
  = (Normal, add_events (list_events Whole (state w) (state w) i rest) w).
Proof.
  induction rest as [|o rest IH]; intros n i w Hdrop Hall Hn;
    (destruct n as [|n]; [simpl in Hn; lia |]); simpl.
  - apply drop_nil_inv in Hdrop.
    rewrite lookup_ge_None_2 by done. by rewrite add_events_nil.
  - assert (Ho : array_at w a !! i = Some o).
    { rewrite <- (Nat.add_0_r i), <- lookup_drop, Hdrop. done. }
    rewrite Ho. simpl in Hall. apply andb_prop in Hall as [Hobs Hall].
    apply andb_prop in Hobs as [Hli Hef].
    erewrite seq_normal; [| by apply invoke_inert].
    erewrite seq_normal; [| cbv beta; rewrite array_at_add_events, Ho; by apply invoke_inert].
    rewrite IH; simpl; try done.
    + rewrite !add_events_app. unfold obs_events.
      by rewrite <- !app_assoc.
    + rewrite array_at_add_events.
      rewrite (drop_S _ _ _ Ho) in Hdrop. by inversion Hdrop.
    + simpl in Hn. lia.
Qed.

Lemma notify_slice_inert m key a rest : forall n k w,
  drop k (array_at w a) = rest ->
  forallb (obs_all inert) rest = true ->
  length rest < n ->
  notify_slice (apply_fn (S m)) n key a k w
  = (Normal, add_events (list_events (Slice key)
                           (get_prop (heap w) (state w) key) (state w) k rest) w).
Proof.
  induction rest as [|o rest IH]; intros n k w Hdrop Hall Hn;
    (destruct n as [|n]; [simpl in Hn; lia |]); simpl.
  - apply drop_nil_inv in Hdrop.
    rewrite lookup_ge_None_2 by done. by rewrite add_events_nil.
  - assert (Ho : array_at w a !! k = Some o).
    { rewrite <- (Nat.add_0_r k), <- lookup_drop, Hdrop. done. }
    rewrite Ho. simpl in Hall. apply andb_prop in Hall as [Hobs Hall].
    apply andb_prop in Hobs as [Hli Hef].
    erewrite seq_normal; [| by apply invoke_inert].
    erewrite seq_normal; [| cbv beta; rewrite array_at_add_events, Ho; by apply invoke_inert].
    rewrite IH; simpl; try done.
    + rewrite !add_events_app. unfold obs_events.
      by rewrite <- !app_assoc.
    + rewrite array_at_add_events.
      rewrite (drop_S _ _ _ Ho) in Hdrop. by inversion Hdrop.
    + simpl in Hn. lia.
Qed.

Lemma notify_slices_inert m n ks : forall w,
  forallb (fun k => forallb (obs_all inert) (slice_observers w k)) ks = true ->
  Forall (fun k => length (slice_observers w k) < n) ks ->
  notify_slices (apply_fn (S m)) n ks w
  = (Normal, add_events (slice_events (heap w) (state w) (slice_observers w) ks) w).
Proof.
  induction ks as [|k ks IH]; intros w Hall Hn; simpl.
  - by rewrite add_events_nil.
  - apply andb_prop in Hall as [Hk Hall]. inversion Hn as [|? ? Hkn Hn']; subst.
    assert (Hso : slice_observers w k
                  = match onListeners w !! k with
                    | Some a => array_at w a
                    | None => []
                    end) by done.
    destruct (onListeners w !! k) as [a|] eqn:Hos; rewrite Hso in *.
    + erewrite seq_normal;
        [| cbv beta; rewrite Hos; apply notify_slice_inert with (rest := array_at w a);
           [apply drop_0 | done | done]].
      rewrite IH by done. simpl. by rewrite add_events_app.
    + erewrite seq_normal; [| cbv beta; by rewrite Hos].
      by rewrite IH.
Qed.

Lemma fuel_for_listeners ks w n :
  fuel_for ks w <= n -> length (whole_observers w) < n.
Proof.
  unfold fuel_for. intros Hn. apply Nat.lt_le_trans with (2 := Hn).
  apply Nat.lt_succ_r. clear Hn. induction ks as [|k ks IH]; simpl; [done | lia].
Qed.

Lemma fuel_for_slices ks w n :
  fuel_for ks w <= n ->
  Forall (fun k => length (slice_observers w k) < n) ks.
Proof.
  unfold fuel_for. intros Hn. apply Forall_forall. intros k Hk.
  apply Nat.lt_le_trans with (2 := Hn). apply Nat.lt_succ_r. clear Hn.
  induction ks as [|k0 ks IH]; [by apply elem_of_nil in Hk |].
  apply elem_of_cons in Hk as [->|Hk]; simpl; [lia |].
  specialize (IH Hk). lia.
Qed.

(** One call of [setState] on a store whose observers are inert: it
    returns, the state is the one assigned on entry, and the log grows by
    the whole-state observers, then the slice observers of the update's
    keys. *)
Lemma setState_inert n w update overwrite (U : list (string * value)) :
  heap w !! update = Some U ->
  observers_all inert (obj_keys U) w = true ->
  fuel_for (obj_keys U) w <= n ->
  let w1 := update_state update overwrite w in
  setState (apply_fn n) n update overwrite w
  = (Normal, add_events (whole_events (state w1) (whole_observers w)
                         ++ slice_events (heap w1) (state w1)
                              (slice_observers w) (obj_keys U)) w1).
Proof.
  intros HU Hall Hn w1.
  destruct (update_state_observers w update overwrite) as (Hls & Hon).
  fold w1 in Hls, Hon.
  apply andb_prop in Hall as [Hwhole Hslices].
  assert (HU1 : heap_obj (heap w1) update = U).
  { unfold heap_obj, w1.
    by rewrite (prefix_lookup_Some _ _ _ _ HU (update_state_heap w update overwrite)). }
  destruct n as [|m]; [unfold fuel_for in Hn; lia |].
  unfold setState. erewrite seq_normal; [| reflexivity]. fold w1.
  erewrite seq_normal.
  2:{ cbv beta zeta. apply notify_listeners_inert with (rest := whole_observers w1).
      - apply drop_0.
      - by rewrite Hls.
      - rewrite Hls. by eapply fuel_for_listeners. }
  cbv beta zeta. simpl heap. rewrite HU1.
  rewrite notify_slices_inert.
  - rewrite add_events_app. unfold whole_events. simpl. rewrite Hls.
    do 3 f_equal. apply flat_map_ext. intros k.
    by rewrite slice_observers_add_events, Hon.
  - apply forallb_forall. intros k Hk.
    rewrite slice_observers_add_events, Hon.
    rewrite forallb_forall in Hslices. by apply Hslices.
  - eapply Forall_impl; [by eapply fuel_for_slices |]. intros k Hk. cbv beta.
    by rewrite slice_observers_add_events, Hon.
Qed.

(** ** Static callbacks: what any pass preserves *)

Lemma pass_refl ks w : observers_all static ks w = true -> pass ks w w.
Proof.
  intros Hw. repeat split; try done. exists []. by rewrite app_nil_r.
Qed.

Lemma pass_trans ks w w1 w2 : pass ks w w1 -> pass ks w1 w2 -> pass ks w w2.
Proof.
  intros (_ & Hs1 & Hh1 & Hl1 & Ho1 & evs1 & Ht1 & Hev1)
         (Hw2 & Hs2 & Hh2 & Hl2 & Ho2 & evs2 & Ht2 & Hev2).
  rewrite Hs1, Hh1 in *. repeat split; try congruence.
  - intros k a Hk. by apply Ho2, Ho1.
  - exists (evs1 ++ evs2). split.
    + by rewrite Ht2, Ht1, app_assoc.
    + by apply Forall_app.
Qed.

Lemma pass_event ks w e :
  observers_all static ks w = true ->
  fan_event (heap w) (state w) ks e ->
  pass ks w (add_event e w).
Proof.
  intros Hw He. repeat split; try done. exists [e]. split; [done |].
  by apply Forall_singleton.
Qed.

Lemma pass_seq ks (a b : world -> completion * world) w :
  pass ks w (a w).2 ->
  (forall w1, pass ks w w1 -> pass ks w1 (b w1).2) ->
  pass ks w ((a ;; b) w).2.
Proof.
  intros Ha Hb. unfold seq. destruct (a w) as [[| |] w1]; simpl in *; try done.
  eapply pass_trans; [done |]. by apply Hb.
Qed.

Lemma passes_seq ks (a b : world -> completion * world) :
  passes ks a -> passes ks b -> passes ks (a ;; b).
Proof.
  intros Ha Hb w Hw. apply pass_seq; [by apply Ha |].
  intros w1 Hw1. apply Hb. by destruct Hw1.
Qed.

Lemma obs_all_default (p : fn -> bool) f effect :
  p noop = true -> p f = true -> from_option p true effect = true ->
  obs_all p (Observer f (default noop effect)) = true.
Proof.
  intros Hn Hf He. unfold obs_all. simpl. rewrite Hf. by destruct effect.
Qed.

(** [push] adds [o] to one array and leaves the others as they are. *)
Lemma array_at_push a o w r :
  array_at (push a o w) r = array_at w r
  \/ array_at (push a o w) r = array_at w r ++ [o].
Proof.
  unfold push, array_at. simpl.
  destruct (decide (r = a)) as [->|Hne].
  - destruct (decide (a < length (arrays w))) as [Hlt|Hge].
    + right. by rewrite list_lookup_insert_eq.
    + left. by rewrite list_insert_ge by lia.
  - left. by rewrite list_lookup_insert_ne.
Qed.

Lemma forallb_push (p : observer -> bool) a o w r :
  p o = true ->
  forallb p (array_at w r) = true ->
  forallb p (array_at (push a o w) r) = true.
Proof.
  intros Ho Hr. destruct (array_at_push a o w r) as [-> | ->]; [done |].
  rewrite forallb_app, Hr. simpl. by rewrite Ho.
Qed.

Lemma observers_all_push (p : fn -> bool) ks a o w :
  obs_all p o = true ->
  observers_all p ks w = true ->
  observers_all p ks (push a o w) = true.
Proof.
  intros Ho Hw. apply andb_prop in Hw as [Hl Hs].
  apply andb_true_intro. split.
  - by apply forallb_push.
  - apply forallb_forall. intros k Hk.
    rewrite forallb_forall in Hs. specialize (Hs k Hk).
    unfold slice_observers in *. simpl.
    destruct (onListeners w !! k); [by apply forallb_push | done].
Qed.

Lemma passes_subscribe ks listener effect :
  static listener = true -> from_option static true effect = true ->
  passes ks (subscribe listener effect).
Proof.
  intros Hli Hef w Hw. unfold subscribe. simpl.
  repeat split; try done.
  - apply observers_all_push; [by apply obs_all_default | done].
  - exists []. by rewrite app_nil_r.
Qed.

(** A key that gets its first array. *)
Lemma observers_all_alloc (p : fn -> bool) ks stateSlice w :
  observers_all p ks w = true ->
  observers_all p ks
    (set_onListeners (<[stateSlice := length (arrays w)]> (onListeners w))
                     (set_arrays (arrays w ++ [[]]) w)) = true.
Proof.
  intros Hw. apply andb_prop in Hw as [Hl Hs].
  apply andb_true_intro. split.
  - unfold whole_observers, array_at. simpl. by rewrite lookup_app_nil_default.
  - apply forallb_forall. intros k Hk.
    rewrite forallb_forall in Hs. specialize (Hs k Hk).
    unfold slice_observers, array_at in *. simpl.
    destruct (decide (stateSlice = k)) as [->|Hne].
    + rewrite lookup_insert_eq, lookup_app_nil_default.
      by rewrite lookup_ge_None_2.
    + rewrite lookup_insert_ne by done.
      destruct (onListeners w !! k); [| done].
      by rewrite lookup_app_nil_default.
Qed.

Lemma passes_on ks stateSlice callback effect :
  static callback = true -> from_option static true effect = true ->
  passes ks (on stateSlice callback effect).
Proof.
  intros Hcb Hef w Hw. unfold on.
  destruct (onListeners w !! stateSlice) as [a|] eqn:Hk; simpl.
  - repeat split; try done.
    + apply observers_all_push; [by apply obs_all_default | done].
    + exists []. by rewrite app_nil_r.
  - repeat split; try done.
    + apply observers_all_push; [by apply obs_all_default |].
      by apply observers_all_alloc.
    + intros k a Hka. simpl. rewrite lookup_insert_ne; [done |]. intros ->. congruence.
    + exists []. by rewrite app_nil_r.
Qed.

Lemma passes_exec_cmds ks call n cs :
  forallb cmd_static cs = true -> passes ks (exec_cmds call n cs).
Proof.
  induction cs as [|c cs IH]; intros Hcs; simpl.
  - intros w Hw. by apply pass_refl.
  - apply andb_prop in Hcs as [Hc Hcs]. apply passes_seq; [| by apply IH].
    destruct c; simpl in Hc; try discriminate.
    + apply andb_prop in Hc as [? ?]. by apply passes_subscribe.
    + apply andb_prop in Hc as [? ?]. by apply passes_on.
    + intros w Hw. by apply pass_event.
    + intros w Hw. by apply pass_event.
Qed.

Lemma passes_apply ks n f arg :
  static f = true -> passes ks (apply_fn n f arg).
Proof.
  intros Hf. destruct n as [|n]; simpl.
  - intros w Hw. by apply pass_refl.
  - apply passes_exec_cmds. by destruct f.
Qed.

Lemma pass_invoke ks m sl r f arg w :
  observers_all static ks w = true ->
  static f = true ->
  fan_event (heap w) (state w) ks (Call sl r (fn_name f) arg) ->
  pass ks w (invoke (apply_fn m) sl r f arg w).2.
Proof.
  intros Hw Hf He. unfold invoke. apply pass_seq.
  - by apply pass_event.
  - intros w1 Hw1. apply passes_apply; [done | by destruct Hw1].
Qed.

Lemma forallb_lookup {A} (p : A -> bool) (l : list A) i x :
  forallb p l = true -> l !! i = Some x -> p x = true.
Proof.
  intros Hall Hx. rewrite forallb_forall in Hall. apply Hall.
  apply list_elem_of_In. by eapply list_elem_of_lookup_2.
Qed.

Lemma whole_observer_static ks w i o :
  observers_all static ks w = true ->
  array_at w (listeners w) !! i = Some o ->
  static (_li o) = true /\ static (_ef o) = true.
Proof.
  intros Hw Ho. apply andb_prop in Hw as [Hl _].
  apply andb_prop. by eapply (forallb_lookup (obs_all static)).
Qed.

Lemma slice_observer_static ks w key a k o :
  observers_all static ks w = true ->
  key ∈ ks ->
  onListeners w !! key = Some a ->
  array_at w a !! k = Some o ->
  static (_li o) = true /\ static (_ef o) = true.
Proof.
  intros Hw Hkey Ha Ho. apply andb_prop in Hw as [_ Hs].
  rewrite forallb_forall in Hs. apply list_elem_of_In in Hkey.
  specialize (Hs key Hkey). unfold slice_observers in Hs. rewrite Ha in Hs.
  apply andb_prop. by eapply (forallb_lookup (obs_all static)).
Qed.

Lemma passes_notify_listeners ks m n : forall i w,
  observers_all static ks w = true ->
  pass ks w (notify_listeners (apply_fn m) n (listeners w) i w).2.
Proof.
  induction n as [|n IH]; intros i w Hw; simpl.
  - by apply pass_refl.
  - destruct (array_at w (listeners w) !! i) as [o|] eqn:Ho; [| by apply pass_refl].
    destruct (whole_observer_static _ _ _ _ Hw Ho) as [Hli _].
    apply pass_seq; [by apply pass_invoke |].
    intros w1 Hp1. pose proof Hp1 as (Hw1 & _ & _ & Hl1 & _).
    rewrite <- Hl1. apply pass_seq.
    + destruct (array_at w1 (listeners w1) !! i) as [o1|] eqn:Ho1.
      * destruct (whole_observer_static _ _ _ _ Hw1 Ho1) as [_ Hef].
        by apply pass_invoke.
      * by apply pass_event.
    + intros w2 Hp2. pose proof Hp2 as (Hw2 & _ & _ & Hl2 & _).
      rewrite <- Hl2. by apply IH.
Qed.

Lemma passes_notify_slice ks m key a n : key ∈ ks -> forall k w,
  observers_all static ks w = true ->
  onListeners w !! key = Some a ->
  pass ks w (notify_slice (apply_fn m) n key a k w).2.
Proof.
  intros Hkey. induction n as [|n IH]; intros k w Hw Ha; simpl.
  - by apply pass_refl.
  - destruct (array_at w a !! k) as [o|] eqn:Ho; [| by apply pass_refl].
    destruct (slice_observer_static _ _ _ _ _ _ Hw Hkey Ha Ho) as [Hli _].
    apply pass_seq; [by apply pass_invoke |].
    intros w1 Hp1. pose proof Hp1 as (Hw1 & _ & _ & _ & Ho1 & _).
    apply pass_seq.
    + destruct (array_at w1 a !! k) as [o1|] eqn:Hk1.
      * destruct (slice_observer_static _ _ _ _ _ _ Hw1 Hkey (Ho1 _ _ Ha) Hk1)
          as [_ Hef].
        by apply pass_invoke.
      * by apply pass_event.
    + intros w2 Hp2. pose proof Hp2 as (Hw2 & _ & _ & _ & Ho2 & _).
      apply IH; [done |]. by apply Ho2, Ho1.
Qed.

Lemma passes_notify_slices ks m n stateChanged :
  stateChanged ⊆ ks -> passes ks (notify_slices (apply_fn m) n stateChanged).
Proof.
  induction stateChanged as [|key rest IH]; intros Hsub; simpl.
  - intros w Hw. by apply pass_refl.
  - apply passes_seq.
    + intros w Hw. destruct (onListeners w !! key) as [a|] eqn:Ha;
        [| by apply pass_refl].
      apply passes_notify_slice; [| done | done]. apply Hsub. by left.
    + apply IH. intros k Hk. apply Hsub. by right.
Qed.

(** One call of [setState] on a store whose observers are static, with any
    fuel and whatever its completion. *)
Lemma setState_static n w update overwrite (U : list (string * value)) :
  heap w !! update = Some U ->
  observers_all static (obj_keys U) w = true ->
  pass (obj_keys U) (update_state update overwrite w)
       (setState (apply_fn n) n update overwrite w).2.
Proof.
  intros HU Hw.
  destruct (update_state_observers w update overwrite) as (Hls & Hon).
  assert (Hw1 : observers_all static (obj_keys U) (update_state update overwrite w) = true).
  { unfold observers_all. rewrite Hls.
    apply andb_prop in Hw as [-> Hs]. simpl.
    apply forallb_forall. intros k Hk. rewrite Hon.
    rewrite forallb_forall in Hs. by apply Hs. }
  unfold setState. erewrite seq_normal; [| reflexivity].
  apply pass_seq; [by apply passes_notify_listeners |].
  intros w2 (Hw2 & _ & Hh2 & _). cbv zeta. rewrite Hh2.
  unfold heap_obj.
  rewrite (prefix_lookup_Some _ _ _ _ HU (update_state_heap w update overwrite)).
  simpl. by apply passes_notify_slices.
Qed.

(** ** Arbitrary callbacks: properties of every run *)

Section Runs.
(** A property of a run from a world to a result that holds of the basic
    steps and composes holds of every run, whatever the callbacks do. *)
Variable Q : world -> completion * world -> Prop.
Hypothesis Q_basic : forall w r, basic w r -> Q w r.
Hypothesis Q_trans : forall w w1 r, Q w (Normal, w1) -> Q w1 r -> Q w r.

Lemma run_seq (a b : world -> completion * world) w :
  Q w (a w) -> (forall w1, Q w1 (b w1)) -> Q w ((a ;; b) w).
Proof.
  intros Ha Hb. unfold seq. destruct (a w) as [[| |] w1]; try done.
  by eapply Q_trans.
Qed.

Section Loops.
Variable call : fn -> value -> world -> completion * world.
Hypothesis Q_call : forall f arg w, Q w (call f arg w).

Lemma run_invoke sl r f arg w : Q w (invoke call sl r f arg w).
Proof. apply run_seq; [apply Q_basic; constructor | by intros]. Qed.

Lemma run_notify_listeners n a : forall i w, Q w (notify_listeners call n a i w).
Proof.
  induction n as [|n IH]; intros i w; simpl.
  - apply Q_basic. constructor.
  - destruct (array_at w a !! i); [| apply Q_basic; constructor].
    apply run_seq; [apply run_invoke |]. intros w1.
    apply run_seq; [| by intros].
    destruct (array_at w1 a !! i);
      [apply run_invoke | apply Q_basic; constructor].
Qed.

Lemma run_notify_slice n key a : forall k w, Q w (notify_slice call n key a k w).
Proof.
  induction n as [|n IH]; intros k w; simpl.
  - apply Q_basic. constructor.
  - destruct (array_at w a !! k); [| apply Q_basic; constructor].
    apply run_seq; [apply run_invoke |]. intros w1.
    apply run_seq; [| by intros].
    destruct (array_at w1 a !! k);
      [apply run_invoke | apply Q_basic; constructor].
Qed.

Lemma run_notify_slices n stateChanged : forall w,
  Q w (notify_slices call n stateChanged w).
Proof.
  induction stateChanged as [|key rest IH]; intros w; simpl.
  - apply Q_basic. constructor.
  - apply run_seq; [| done].
    destruct (onListeners w !! key);
      [apply run_notify_slice | apply Q_basic; constructor].
Qed.

Lemma run_setState n update overwrite w :
  Q w (setState call n update overwrite w).
Proof.
  unfold setState. apply run_seq; [apply Q_basic; constructor |].
  intros w1. apply run_seq; [apply run_notify_listeners |].
  intros w2. apply run_notify_slices.
Qed.

Lemma run_exec_cmds n cs : forall w, Q w (exec_cmds call n cs w).
Proof.
  induction cs as [|c cs IH]; intros w; simpl.
  - apply Q_basic. constructor.
  - apply run_seq; [| done].
    destruct c; simpl; try (apply Q_basic; constructor).
    + apply run_setState.
    + eapply Q_trans; [| apply run_setState].
      apply Q_basic. constructor.
Qed.
End Loops.

Lemma run_apply n : forall f arg w, Q w (apply_fn n f arg w).
Proof.
  induction n as [|n IH]; intros f arg w; simpl.
  - apply Q_basic. constructor.
  - by apply run_exec_cmds.
Qed.

Lemma run_store n update overwrite w :
  Q w (setState (apply_fn n) n update overwrite w).
Proof. apply run_setState. apply run_apply. Qed.
End Runs.

(** No run changes the contents of an object that exists. *)
Lemma run_heap n update overwrite w :
  heap w `prefix_of` heap (setState (apply_fn n) n update overwrite w).2.
Proof.
  apply (run_store (fun w r => heap w `prefix_of` heap r.2)).
  - intros w0 r Hr. destruct Hr; simpl; try done.
    + apply update_state_heap.
    + by apply prefix_app_r.
    + unfold on.
      match goal with
      | |- context [onListeners ?x !! ?k] => by destruct (onListeners x !! k)
      end.
  - intros w0 w1 r H1 H2. simpl in *. by etrans.
Qed.

(** The log of a run has an exception only as its last event, and exactly
    when the run ends in that exception. *)
Lemma run_throw n update overwrite w :
  let r := setState (apply_fn n) n update overwrite w in
  exists evs, trace r.2 = trace w ++ evs
    /\ match r.1 with
       | Throw v => exists pre, evs = pre ++ [Threw v] /\ forall v', Threw v' ∉ pre
       | _ => forall v', Threw v' ∉ evs
       end.
Proof.
  apply (run_store (fun w r =>
    exists evs, trace r.2 = trace w ++ evs
      /\ match r.1 with
         | Throw v => exists pre, evs = pre ++ [Threw v] /\ forall v', Threw v' ∉ pre
         | _ => forall v', Threw v' ∉ evs
         end)).
  - intros w0 r Hr.
    destruct Hr; simpl;
      try (exists []; split; [by rewrite app_nil_r | intros v'; apply not_elem_of_nil]).
    + eexists. split; [done |]. intros v' Hin.
      apply list_elem_of_singleton in Hin. discriminate.
    + eexists. split; [done |]. intros v' Hin.
      apply list_elem_of_singleton in Hin. discriminate.
    + eexists. split; [done |]. exists []. split; [done |].
      intros v'. apply not_elem_of_nil.
    + unfold update_state. destruct (truthy overwrite0); simpl;
        exists []; (split; [by rewrite app_nil_r | intros v'; apply not_elem_of_nil]).
    + unfold on.
      match goal with
      | |- context [onListeners ?x !! ?k] => destruct (onListeners x !! k)
      end; simpl;
        exists []; (split; [by rewrite app_nil_r | intros v'; apply not_elem_of_nil]).
  - intros w0 w1 [c w2] (evs1 & Ht1 & Hev1) (evs2 & Ht2 & Hev2). simpl in *.
    exists (evs1 ++ evs2). split; [by rewrite Ht2, Ht1, app_assoc |].
    destruct c.
    + intros v'. rewrite elem_of_app. intros [Hin|Hin]; [by eapply Hev1 | by eapply Hev2].
    + destruct Hev2 as (pre & -> & Hpre). exists (evs1 ++ pre).
      split; [by rewrite app_assoc |].
      intros v'. rewrite elem_of_app. intros [Hin|Hin]; [by eapply Hev1 | by eapply Hpre].
    + intros v'. rewrite elem_of_app. intros [Hin|Hin]; [by eapply Hev1 | by eapply Hev2].
Qed.

Lemma inert_static f : inert f = true -> static f = true.
Proof.
  destruct f as [nm body]. unfold inert. simpl. intros Hb.
  rewrite forallb_forall in *. intros c Hc. specialize (Hb c Hc).
  by destruct c.
Qed.

Lemma since_add_events evs w : since (length (trace w)) (add_events evs w) = evs.
Proof. unfold since. simpl. by rewrite drop_app_length. Qed.

Lemma pass_since ks w w' :
  pass ks w w' ->
  Forall (fan_event (heap w) (state w) ks) (since (length (trace w)) w').
Proof.
  intros (_ & _ & _ & _ & _ & evs & Ht & Hev). unfold since.
  by rewrite Ht, drop_app_length.
Qed.

(** ** The example of the documentation *)

(** [createStore()], [subscribe(W)], [on('a', L)], then [setState] of
    [{a:'b'}], [{c:'d'}] and [{a:'foo'}]: the final state and the calls. *)
Example doc_comment_scenario :
  let h := [[("a", VStr "b")]; [("c", VStr "d")]; [("a", VStr "foo")]] in
  let r := (subscribe (Fn "W" []) None ;;
            on "a" L None ;;
            setState (apply_fn 3) 3 0 VUndefined ;;
            setState (apply_fn 3) 3 1 VUndefined ;;
            setState (apply_fn 3) 3 2 VUndefined) (createStore VUndefined h) in
  r.1 = Normal
  /\ own_props (heap r.2) (getState r.2) = [("a", VStr "foo"); ("c", VStr "d")]
  /\ trace r.2
     = [Call (Whole 0) OnChange "W" (VRef 4); Call (Whole 0) OnEffect "noop" (VRef 4);
        Call (Slice "a" 0) OnChange "L" (VStr "b");
        Call (Slice "a" 0) OnEffect "noop" (VStr "b");
        Call (Whole 0) OnChange "W" (VRef 5); Call (Whole 0) OnEffect "noop" (VRef 5);
        Call (Whole 0) OnChange "W" (VRef 6); Call (Whole 0) OnEffect "noop" (VRef 6);
        Call (Slice "a" 0) OnChange "L" (VStr "foo");
        Call (Slice "a" 0) OnEffect "noop" (VStr "foo")].
Proof. vm_compute. done. Qed.

(** ** The claims *)

(** C1. Merge: after [setState(U)] with a falsy [overwrite] on a store
    whose state is the object [St], the state is a new object [R] with
    [R[k] = U[k]] for the keys of [U], [R[k] = St[k]] for the other keys of
    [St], and no other key.  The observers may be any callbacks that do
    not call [setState] themselves; when they only read the store, the
    call returns. *)
Theorem setState_merge n w update overwrite ls (St U : list (string * value)) :
  truthy overwrite = false ->
  state w = VRef ls ->
  heap w !! ls = Some St ->
  heap w !! update = Some U ->
  observers_all static (obj_keys U) w = true ->
  let r := setState (apply_fn n) n update overwrite w in
  (exists R,
     getState r.2 = VRef (length (heap w))
     /\ heap r.2 !! length (heap w) = Some R
     /\ forall k, obj_get R k = match obj_get U k with
                                | Some v => Some v
                                | None => obj_get St k
                                end)
  /\ (observers_all inert (obj_keys U) w = true ->
      fuel_for (obj_keys U) w <= n -> r.1 = Normal).
Proof.
  intros Hf Hs HSt HU Hw. cbv zeta. split.
  - destruct (setState_static n w update overwrite U HU Hw) as (_ & Hs' & Hh' & _).
    rewrite (update_state_merge _ _ _ U Hf HU) in Hs', Hh'. simpl in Hs', Hh'.
    eexists. unfold getState. rewrite Hs', Hh'.
    split; [done |]. split; [by apply list_lookup_middle |].
    intros k. rewrite !obj_get_copy. simpl.
    rewrite Hs. simpl. unfold heap_obj. rewrite HSt. simpl.
    by destruct (obj_get U k), (obj_get St k).
  - intros Hi Hn. by rewrite (setState_inert n w update overwrite U HU Hi Hn).
Qed.

(** [setState({a: 1})] on the state [{a:'b', c:'d'}]. *)
Lemma setState_merge_witness :
  let r := setState (apply_fn 2) 2 1 VUndefined doc_store in
  (exists R,
     getState r.2 = VRef 4
     /\ heap r.2 !! 4 = Some R
     /\ forall k, obj_get R k = match obj_get [("a", VNum 1)] k with
                                | Some v => Some v
                                | None => obj_get [("a", VStr "b"); ("c", VStr "d")] k
                                end)
  /\ r.1 = Normal.
Proof.
  destruct (setState_merge 2 doc_store 1 VUndefined 0
              [("a", VStr "b"); ("c", VStr "d")] [("a", VNum 1)])
    as [Hstate Hreturns]; try reflexivity.
  split; [exact Hstate |]. apply Hreturns; [reflexivity | vm_compute; lia].
Defined.

(** C2. Overwrite: after [setState(U, true)] the state is the object [U]
    itself, with the contents of [U], whatever the state was.  The
    observers may be any callbacks that do not call [setState] themselves;
    when they only read the store, the call returns. *)
Theorem setState_overwrite n w update overwrite (U : list (string * value)) :
  truthy overwrite = true ->
  heap w !! update = Some U ->
  observers_all static (obj_keys U) w = true ->
  let r := setState (apply_fn n) n update overwrite w in
  getState r.2 = VRef update
  /\ own_props (heap r.2) (getState r.2) = U
  /\ (observers_all inert (obj_keys U) w = true ->
      fuel_for (obj_keys U) w <= n -> r.1 = Normal).
Proof.
  intros Ht HU Hw. cbv zeta.
  destruct (setState_static n w update overwrite U HU Hw) as (_ & Hs' & Hh' & _).
  rewrite (update_state_overwrite _ _ _ Ht) in Hs', Hh'. simpl in Hs', Hh'.
  unfold getState. rewrite Hs'. simpl. unfold heap_obj. rewrite Hh', HU.
  repeat split.
  intros Hi Hn. by rewrite (setState_inert n w update overwrite U HU Hi Hn).
Qed.

(** [setState({a: 1}, true)] on the state [{a:'b', c:'d'}]. *)
Lemma setState_overwrite_witness :
  let r := setState (apply_fn 2) 2 1 (VBool true) doc_store in
  getState r.2 = VRef 1
  /\ own_props (heap r.2) (getState r.2) = [("a", VNum 1)]
  /\ r.1 = Normal.
Proof.
  destruct (setState_overwrite 2 doc_store 1 (VBool true) [("a", VNum 1)])
    as (Hstate & Hprops & Hreturns); try reflexivity.
  split; [exact Hstate |]. split; [exact Hprops |].
  apply Hreturns; [reflexivity | vm_compute; lia].
Defined.

(** C3. Notification order: on a store whose observers only read the
    store, [setState] returns after logging, first, every whole-state
    observer in insertion order, onChange then onEffect, each on the new
    state, and then, for each key of the update in the order of its keys,
    the slice observers of that key in insertion order, onChange then
    onEffect, each on the value of the new state at that key. *)
Theorem setState_fanout_order n w update overwrite (U : list (string * value)) :
  heap w !! update = Some U ->
  observers_all inert (obj_keys U) w = true ->
  fuel_for (obj_keys U) w <= n ->
  exists w',
    setState (apply_fn n) n update overwrite w = (Normal, w')
    /\ since (length (trace w)) w'
       = whole_events (getState w') (whole_observers w)
         ++ slice_events (heap w') (getState w') (slice_observers w) (obj_keys U).
Proof.
  intros HU Hw Hn. eexists. split; [by eapply setState_inert |].
  destruct (update_state_frame w update overwrite) as (_ & _ & _ & Ht).
  rewrite <- Ht. by rewrite since_add_events.
Qed.

(** With one whole-state subscriber [W] and one slice observer [L] on
    ["a"], [setState({a: 1})] calls [W] before [L]. *)
Lemma setState_fanout_order_witness :
  exists w',
    setState (apply_fn 2) 2 1 VUndefined doc_store = (Normal, w')
    /\ since 0 w'
       = [Call (Whole 0) OnChange "W" (VRef 4); Got (VRef 4);
          Call (Whole 0) OnEffect "noop" (VRef 4);
          Call (Slice "a" 0) OnChange "L" (VNum 1);
          Call (Slice "a" 0) OnEffect "noop" (VNum 1)].
Proof.
  destruct (setState_fanout_order 2 doc_store 1 VUndefined [("a", VNum 1)])
    as (w' & Hrun & Hlog); [reflexivity | reflexivity | vm_compute; lia |].
  exists w'. split; [exact Hrun |].
  change (length (trace doc_store)) with 0 in Hlog. rewrite Hlog.
  inversion Hrun; subst w'. reflexivity.
Defined.

(** C4. The first loop of [setState] reads the array [listeners] itself,
    not a copy: an observer that [W] subscribes while [W] is being
    notified is called, as [listeners[1]], by the pass that called [W]. *)
Example subscribed_during_pass_is_notified :
  let r := setState (apply_fn 3) 3 3 VUndefined growing_store in
  length (whole_observers growing_store) = 1
  /\ r.1 = Normal
  /\ since 0 r.2
     = [Call (Whole 0) OnChange "W" (VRef 4);
        Call (Whole 0) OnEffect "noop" (VRef 4);
        Call (Whole 1) OnChange "N" (VRef 4);
        Call (Whole 1) OnEffect "noop" (VRef 4)].
Proof. vm_compute. done. Qed.

(** C5. A callback that throws aborts the pass: when an exception is
    logged during [setState], the call ends with that exception and
    nothing is logged after it, whatever the observers are. *)
Theorem setState_throw_aborts n w update overwrite v :
  let r := setState (apply_fn n) n update overwrite w in
  Threw v ∈ since (length (trace w)) r.2 ->
  r.1 = Throw v /\ exists pre, since (length (trace w)) r.2 = pre ++ [Threw v].
Proof.
  cbv zeta. destruct (run_throw n update overwrite w) as (evs & Ht & Hev).
  unfold since. rewrite Ht, drop_app_length. intros Hin.
  destruct (setState (apply_fn n) n update overwrite w).1; simpl in Hev.
  - by apply Hev in Hin.
  - destruct Hev as (pre & -> & Hpre).
    apply elem_of_app in Hin as [Hin|Hin]; [by apply Hpre in Hin |].
    apply list_elem_of_singleton in Hin. inversion Hin; subst. eauto.
  - by apply Hev in Hin.
Qed.

(** The second of three whole-state observers throws: the third one and
    the slice observer of ["a"] are not called. *)
Lemma setState_throw_aborts_witness :
  let r := setState (apply_fn 4) 4 1 VUndefined faulty_store in
  since 0 r.2 = [Call (Whole 0) OnChange "A" (VRef 4);
                 Call (Whole 0) OnEffect "noop" (VRef 4);
                 Call (Whole 1) OnChange "B" (VRef 4);
                 Threw (VStr "boom")]
  /\ r.1 = Throw (VStr "boom")
  /\ exists pre, since 0 r.2 = pre ++ [Threw (VStr "boom")].
Proof.
  split; [reflexivity |].
  apply (setState_throw_aborts 4 faulty_store 1 VUndefined (VStr "boom")).
  vm_compute. do 3 right. left.
Defined.

(** C6. [setState({})] with a falsy [overwrite], on a store whose state is
    the object [St] and whose whole-state observers only read the store:
    the new state has the properties of [St] and no other, every
    whole-state observer is called on it, and nothing else is called. *)
Theorem setState_empty n w update overwrite ls (St : list (string * value)) :
  truthy overwrite = false ->
  heap w !! update = Some [] ->
  state w = VRef ls ->
  heap w !! ls = Some St ->
  forallb (obs_all inert) (whole_observers w) = true ->
  length (whole_observers w) < n ->
  exists w' l' R,
    setState (apply_fn n) n update overwrite w = (Normal, w')
    /\ getState w' = VRef l'
    /\ heap w' !! l' = Some R
    /\ (forall k, obj_get R k = obj_get St k)
    /\ since (length (trace w)) w' = whole_events (getState w') (whole_observers w).
Proof.
  intros Hf HU Hs HSt Hw Hn.
  pose proof (setState_inert n w update overwrite [] HU) as Hrun.
  simpl in Hrun. unfold observers_all, fuel_for in Hrun. simpl in Hrun.
  rewrite Hw in Hrun. specialize (Hrun eq_refl Hn).
  rewrite app_nil_r in Hrun.
  rewrite (update_state_merge _ _ _ [] Hf HU) in Hrun. simpl in Hrun.
  eexists _, _, _. split; [exact Hrun |]. simpl.
  split; [done |]. split; [by apply list_lookup_middle |].
  split.
  - intros k. rewrite !obj_get_copy. simpl. rewrite Hs. simpl.
    unfold heap_obj. rewrite HSt. simpl. by destruct (obj_get St k).
  - unfold since. simpl. by rewrite drop_app_length.
Qed.

Lemma setState_empty_witness :
  exists w' l' R,
    setState (apply_fn 2) 2 3 VUndefined doc_store = (Normal, w')
    /\ getState w' = VRef l'
    /\ heap w' !! l' = Some R
    /\ (forall k, obj_get R k = obj_get [("a", VStr "b"); ("c", VStr "d")] k)
    /\ since 0 w' = whole_events (getState w') (whole_observers doc_store).
Proof.
  apply (setState_empty 2 doc_store 3 VUndefined 0
           [("a", VStr "b"); ("c", VStr "d")]); try reflexivity.
  vm_compute. lia.
Defined.

(** C7. Slice isolation: when the update has no key [a], no slice
    observer of [a] is called by [setState], whatever the whole-state
    observers are, as long as no callback calls [setState] itself; and
    update keys that have no slice observers make the second phase do
    nothing and end normally. *)
Theorem setState_slice_isolation w update overwrite (U : list (string * value)) a :
  heap w !! update = Some U ->
  a ∉ obj_keys U ->
  observers_all static (obj_keys U) w = true ->
  (forall n j r f v,
     Call (Slice a j) r f v
       ∉ since (length (trace w)) (setState (apply_fn n) n update overwrite w).2)
  /\ (forall call n w1,
        (forall k, k ∈ obj_keys U -> onListeners w1 !! k = None) ->
        notify_slices call n (obj_keys U) w1 = (Normal, w1)).
Proof.
  intros HU Ha Hw. split.
  - intros n j r f v Hin.
    pose proof (pass_since _ _ _ (setState_static n w update overwrite U HU Hw)) as Hev.
    destruct (update_state_frame w update overwrite) as (_ & _ & _ & Ht).
    rewrite Ht in Hev. rewrite Forall_forall in Hev.
    apply Hev in Hin. simpl in Hin. by destruct Hin.
  - intros call n w1. clear. induction (obj_keys U) as [|k ks IH]; intros Hnone.
    + reflexivity.
    + simpl. unfold seq. rewrite Hnone by (by left). simpl.
      apply IH. intros k' Hk'. apply Hnone. by right.
Qed.

(** [setState({b: 2})] on a store with a slice observer of ["a"] and none
    of ["b"]. *)
Lemma setState_slice_isolation_witness :
  (forall n j r f v,
     Call (Slice "a" j) r f v
       ∉ since 0 (setState (apply_fn n) n 2 VUndefined doc_store).2)
  /\ notify_slices (apply_fn 0) 0 ["b"] doc_store = (Normal, doc_store).
Proof.
  destruct (setState_slice_isolation doc_store 2 VUndefined [("b", VNum 2)] "a")
    as [Hnever Hnone].
  - reflexivity.
  - simpl. intros Hin. apply list_elem_of_singleton in Hin. discriminate.
  - reflexivity.
  - split; [exact Hnever |]. apply Hnone.
    intros k Hk. apply list_elem_of_singleton in Hk as ->. reflexivity.
Defined.

(** C8. The state is assigned before any observer is called: whatever a
    callback reads with [getState()] during a [setState] is the state that
    this call assigned on entry, which for a merging call is an object that
    did not exist before.  The observers may be any callbacks that do not
    call [setState] themselves. *)
Theorem getState_in_callback n w update overwrite (U : list (string * value)) v :
  heap w !! update = Some U ->
  observers_all static (obj_keys U) w = true ->
  Got v ∈ since (length (trace w)) (setState (apply_fn n) n update overwrite w).2 ->
  v = (if truthy overwrite then VRef update else VRef (length (heap w)))
  /\ v = getState (update_state update overwrite w)
  /\ (truthy overwrite = false -> forall l, is_Some (heap w !! l) -> v <> VRef l).
Proof.
  intros HU Hw Hin.
  pose proof (pass_since _ _ _ (setState_static n w update overwrite U HU Hw)) as Hev.
  destruct (update_state_frame w update overwrite) as (_ & _ & _ & Ht).
  rewrite Ht in Hev. rewrite Forall_forall in Hev.
  apply Hev in Hin. simpl in Hin. subst v.
  unfold getState, update_state. destruct (truthy overwrite); simpl.
  - repeat split; try done.
  - repeat split; try done. intros _ l Hl Heq. inversion Heq; subst.
    apply lookup_lt_is_Some in Hl. lia.
Qed.

(** [W] reads [getState()] when [setState({a: 1})] notifies it. *)
Lemma getState_in_callback_witness :
  Got (VRef 4) ∈ since 0 (setState (apply_fn 2) 2 1 VUndefined doc_store).2
  /\ VRef 4 = (if truthy VUndefined then VRef 1 else VRef (length (heap doc_store)))
  /\ VRef 4 = getState (update_state 1 VUndefined doc_store)
  /\ (truthy VUndefined = false ->
      forall l, is_Some (heap doc_store !! l) -> VRef 4 <> VRef l).
Proof.
  assert (Hin : Got (VRef 4)
                  ∈ since 0 (setState (apply_fn 2) 2 1 VUndefined doc_store).2).
  { vm_compute. right. left. }
  split; [exact Hin |].
  exact (getState_in_callback 2 doc_store 1 VUndefined [("a", VNum 1)] (VRef 4)
           eq_refl eq_refl Hin).
Defined.

(** C9. No [setState] changes an object that exists: after the call,
    whatever the observers did, every object has the contents it had
    before, and the state that the call assigns on entry is the update
    object itself or an object that did not exist before. *)
Theorem setState_keeps_objects n w update overwrite l (o : list (string * value)) :
  heap w !! l = Some o ->
  heap (setState (apply_fn n) n update overwrite w).2 !! l = Some o
  /\ (getState (update_state update overwrite w) = VRef update
      \/ getState (update_state update overwrite w) = VRef (length (heap w))
         /\ heap w !! length (heap w) = None).
Proof.
  intros Hl. split.
  - eapply prefix_lookup_Some; [done | apply run_heap].
  - unfold getState, update_state. destruct (truthy overwrite); simpl.
    + by left.
    + right. split; [done |]. by apply lookup_ge_None_2.
Qed.

(** The object that was the state of the example store before
    [setState({a: 1})]. *)
Lemma setState_keeps_objects_witness :
  heap (setState (apply_fn 3) 3 1 VUndefined doc_store).2 !! 0
  = Some [("a", VStr "b"); ("c", VStr "d")]
  /\ (getState (update_state 1 VUndefined doc_store) = VRef 1
      \/ getState (update_state 1 VUndefined doc_store) = VRef (length (heap doc_store))
         /\ heap doc_store !! length (heap doc_store) = None).
Proof.
  apply (setState_keeps_objects 3 doc_store 1 VUndefined 0
           [("a", VStr "b"); ("c", VStr "d")]).
  reflexivity.
Defined.

(** C10. [createStore] replaces every falsy initial state, not only a
    missing one, by a new empty object. *)
Theorem createStore_falsy initial (h : list (list (string * value))) :
  truthy initial = false ->
  let w := createStore initial h in
  getState w = VRef (length h)
  /\ heap w !! length h = Some []
  /\ h !! length h = None
  /\ getState w <> initial.
Proof.
  intros Hf. unfold createStore, getState. rewrite Hf. simpl.
  split; [done |]. split; [by apply list_lookup_middle |].
  split; [by apply lookup_ge_None_2 |].
  intros <-. discriminate.
Qed.

Lemma createStore_falsy_witness :
  Forall (fun initial =>
            let w := createStore initial [] in
            getState w = VRef 0 /\ heap w !! 0 = Some []
            /\ ([] : list (list (string * value))) !! 0 = None
            /\ getState w <> initial)
         [VUndefined; VNull; VNum 0; VStr ""; VBool false].
Proof.
  repeat apply Forall_cons_2; try apply Forall_nil_2.
  - apply (createStore_falsy VUndefined []). reflexivity.
  - apply (createStore_falsy VNull []). reflexivity.
  - apply (createStore_falsy (VNum 0) []). reflexivity.
  - apply (createStore_falsy (VStr "") []). reflexivity.
  - apply (createStore_falsy (VBool false) []). reflexivity.
Defined.

(** ** Further properties of the store *)

(** *** Runs only add *)

Lemma grows_refl w : grows w w.
Proof. by repeat split. Qed.

Lemma grows_trans w w1 w2 : grows w w1 -> grows w1 w2 -> grows w w2.
Proof.
  intros (Hl1 & Ho1 & Ha1 & Hh1 & Ht1) (Hl2 & Ho2 & Ha2 & Hh2 & Ht2).
  repeat split.
  - congruence.
  - intros k a Hk. by apply Ho2, Ho1.
  - intros a. etrans; [apply Ha1 | apply Ha2].
  - etrans; [exact Hh1 | exact Hh2].
  - etrans; [exact Ht1 | exact Ht2].
Qed.

Lemma grows_push a o w : grows w (push a o w).
Proof.
  repeat split; try done. intros r.
  destruct (array_at_push a o w r) as [-> | ->]; [done | by apply prefix_app_r].
Qed.

Lemma grows_basic w r : basic w r -> grows w r.2.
Proof.
  intros Hr. destruct Hr; simpl; try apply grows_refl.
  - repeat split; try done. by apply prefix_app_r.
  - repeat split; try done. by apply prefix_app_r.
  - repeat split; try done. by apply prefix_app_r.
  - destruct (update_state_frame w update overwrite) as (Ha & Hl & Ho & Ht).
    repeat split; try congruence.
    + intros a. unfold array_at. by rewrite Ha.
    + apply update_state_heap.
    + by rewrite Ht.
  - repeat split; try done. by apply prefix_app_r.
  - apply grows_push.
  - unfold on. destruct (onListeners w !! stateSlice) as [a|] eqn:Hk; simpl.
    + apply grows_push.
    + eapply grows_trans; [| apply grows_push].
      repeat split; try done.
      * intros k a Hka. simpl. rewrite lookup_insert_ne; [done |].
        intros ->. congruence.
      * intros a. unfold array_at. simpl. by rewrite lookup_app_nil_default.
Qed.

Lemma grows_apply n f arg w : grows w (apply_fn n f arg w).2.
Proof.
  apply (run_apply (fun w r => grows w r.2)).
  - apply grows_basic.
  - intros w0 w1 r H1 H2. simpl in *. by eapply grows_trans.
Qed.

Lemma grows_invoke n sl r f arg w : grows w (invoke (apply_fn n) sl r f arg w).2.
Proof.
  apply (run_invoke (fun w r => grows w r.2)).
  - apply grows_basic.
  - intros w0 w1 r0 H1 H2. simpl in *. by eapply grows_trans.
  - intros f0 arg0 w0. apply grows_apply.
Qed.

Lemma grows_notify_listeners m n a i w :
  grows w (notify_listeners (apply_fn m) n a i w).2.
Proof.
  apply (run_notify_listeners (fun w r => grows w r.2)).
  - apply grows_basic.
  - intros w0 w1 r H1 H2. simpl in *. by eapply grows_trans.
  - intros f0 arg0 w0. apply grows_apply.
Qed.

Lemma grows_notify_slice m n key a k w :
  grows w (notify_slice (apply_fn m) n key a k w).2.
Proof.
  apply (run_notify_slice (fun w r => grows w r.2)).
  - apply grows_basic.
  - intros w0 w1 r H1 H2. simpl in *. by eapply grows_trans.
  - intros f0 arg0 w0. apply grows_apply.
Qed.

Lemma grows_notify_slices m n ks w :
  grows w (notify_slices (apply_fn m) n ks w).2.
Proof.
  apply (run_notify_slices (fun w r => grows w r.2)).
  - apply grows_basic.
  - intros w0 w1 r H1 H2. simpl in *. by eapply grows_trans.
  - intros f0 arg0 w0. apply grows_apply.
Qed.

Lemma grows_setState n update overwrite w :
  grows w (setState (apply_fn n) n update overwrite w).2.
Proof.
  apply (run_store (fun w r => grows w r.2)).
  - apply grows_basic.
  - intros w0 w1 r H1 H2. simpl in *. by eapply grows_trans.
Qed.

Lemma grows_slice_observers w w' k :
  grows w w' -> slice_observers w k `prefix_of` slice_observers w' k.
Proof.
  intros (_ & Ho & Ha & _). unfold slice_observers.
  destruct (onListeners w !! k) as [a|] eqn:Hk.
  - rewrite (Ho _ _ Hk). apply Ha.
  - apply prefix_nil.
Qed.

Lemma grows_whole_observers w w' :
  grows w w' -> whole_observers w `prefix_of` whole_observers w'.
Proof. intros (Hl & _ & Ha & _). unfold whole_observers. rewrite Hl. apply Ha. Qed.

(** X1. There is no way to remove an observer: across a [setState],
    whatever the callbacks do, the whole-state observers and the slice
    observers of every key are still there, at the same indices, and a key
    that had an array still has it. *)
Theorem observers_never_removed n update overwrite w :
  let w' := (setState (apply_fn n) n update overwrite w).2 in
  whole_observers w `prefix_of` whole_observers w'
  /\ (forall k, slice_observers w k `prefix_of` slice_observers w' k)
  /\ (forall k, is_Some (onListeners w !! k) -> is_Some (onListeners w' !! k)).
Proof.
  cbv zeta. pose proof (grows_setState n update overwrite w) as Hg.
  split; [by apply grows_whole_observers |].
  split; [intros k; by apply grows_slice_observers |].
  intros k [a Hk]. destruct Hg as (_ & Ho & _). exists a. by apply Ho.
Qed.

(** *** Well-formed stores *)

Lemma NoDup_fmap_elem {A B} (f : A -> B) (l : list A) x y :
  NoDup (f <$> l) -> x ∈ l -> y ∈ l -> f x = f y -> x = y.
Proof.
  induction l as [|z l IH]; intros Hnd Hx Hy Hf.
  - by apply elem_of_nil in Hx.
  - rewrite fmap_cons in Hnd. apply NoDup_cons in Hnd as [Hz Hnd].
    apply elem_of_cons in Hx as [->|Hx]; apply elem_of_cons in Hy as [->|Hy].
    + done.
    + exfalso. apply Hz. rewrite Hf. by apply list_elem_of_fmap_2.
    + exfalso. apply Hz. rewrite <- Hf. by apply list_elem_of_fmap_2.
    + by apply IH.
Qed.

Lemma wf_refs_ok w : wf w = true <-> refs_ok w.
Proof.
  unfold wf, refs_ok. rewrite !andb_true_iff, !bool_decide_eq_true, forallb_forall.
  split.
  - intros [[Hl Hall] Hnd]. split; [done |]. split.
    + intros k a Hk. apply elem_of_map_to_list, list_elem_of_In in Hk.
      apply Hall in Hk. simpl in Hk.
      apply andb_true_iff in Hk as [Hlt Hne].
      apply bool_decide_eq_true in Hlt. apply negb_true_iff, Nat.eqb_neq in Hne.
      done.
    + intros k k' a Hk Hk'. apply elem_of_map_to_list in Hk, Hk'.
      by pose proof (NoDup_fmap_elem snd _ _ _ Hnd Hk Hk' eq_refl) as [= ->].
  - intros (Hl & Hall & Hinj). split; [split; [done |] |].
    + intros [k a] Hk. apply list_elem_of_In, elem_of_map_to_list in Hk.
      destruct (Hall _ _ Hk) as [Hlt Hne]. simpl.
      apply andb_true_iff. split; [by apply bool_decide_eq_true |].
      by apply negb_true_iff, Nat.eqb_neq.
    + apply NoDup_fmap_2_strong; [| apply NoDup_map_to_list].
      intros [k a] [k' a'] Hk Hk' Heq. simpl in Heq. subst a'.
      apply elem_of_map_to_list in Hk, Hk'. by rewrite (Hinj _ _ _ Hk Hk').
Qed.

Lemma refs_ok_push a o w : refs_ok w -> refs_ok (push a o w).
Proof.
  intros (Hl & Hall & Hinj). unfold refs_ok, push. simpl.
  by rewrite length_insert.
Qed.

Lemma refs_ok_alloc stateSlice w :
  refs_ok w ->
  onListeners w !! stateSlice = None ->
  refs_ok (set_onListeners (<[stateSlice := length (arrays w)]> (onListeners w))
                           (set_arrays (arrays w ++ [[]]) w)).
Proof.
  intros (Hl & Hall & Hinj) Hnone. unfold refs_ok. simpl.
  rewrite length_app. simpl. split; [lia |]. split.
  - intros k a Hk. destruct (decide (stateSlice = k)) as [->|Hne].
    + rewrite lookup_insert_eq in Hk. inversion Hk; subst. lia.
    + rewrite lookup_insert_ne in Hk by done.
      destruct (Hall _ _ Hk). split; [lia | done].
  - intros k k' a Hk Hk'.
    destruct (decide (stateSlice = k)) as [Heq|Hne];
      destruct (decide (stateSlice = k')) as [Heq'|Hne']; [congruence | | |].
    + subst k. rewrite lookup_insert_eq in Hk.
      rewrite lookup_insert_ne in Hk' by done.
      inversion Hk; subst. destruct (Hall _ _ Hk'). lia.
    + subst k'. rewrite lookup_insert_eq in Hk'.
      rewrite lookup_insert_ne in Hk by done.
      inversion Hk'; subst. destruct (Hall _ _ Hk). lia.
    + rewrite lookup_insert_ne in Hk, Hk' by done. by eapply Hinj.
Qed.

Lemma refs_ok_basic w r : basic w r -> refs_ok w -> refs_ok r.2.
Proof.
  intros Hr Hw. destruct Hr; simpl; try done.
  - destruct (update_state_frame w update overwrite) as (Ha & Hl & Ho & _).
    unfold refs_ok. by rewrite Ha, Hl, Ho.
  - by apply refs_ok_push.
  - unfold on.
    match goal with
    | |- context [onListeners ?x !! ?k] => destruct (onListeners x !! k) eqn:Hk
    end; simpl.
    + by apply refs_ok_push.
    + apply refs_ok_push. by apply refs_ok_alloc.
Qed.

Lemma refs_ok_setState n update overwrite w :
  refs_ok w -> refs_ok (setState (apply_fn n) n update overwrite w).2.
Proof.
  apply (run_store (fun w r => refs_ok w -> refs_ok r.2)).
  - intros w0 r. apply refs_ok_basic.
  - intros w0 w1 r H1 H2 Hw. simpl in *. auto.
Qed.

Lemma refs_ok_createStore initial (h : list (list (string * value))) :
  refs_ok (createStore initial h).
Proof.
  unfold createStore. destruct (truthy initial); unfold refs_ok; simpl;
    (split; [lia |]); split; intros *; by rewrite lookup_empty.
Qed.

(** What [push] does to the array it is applied to, and to the others. *)
Lemma array_at_push_eq a o w :
  a < length (arrays w) -> array_at (push a o w) a = array_at w a ++ [o].
Proof. intros Hlt. unfold push, array_at. simpl. by rewrite list_lookup_insert_eq. Qed.

Lemma array_at_push_ne a o w r :
  r <> a -> array_at (push a o w) r = array_at w r.
Proof. intros Hne. unfold push, array_at. simpl. by rewrite list_lookup_insert_ne. Qed.

Lemma subscribe_observers listener effect w :
  refs_ok w ->
  whole_observers (subscribe listener effect w).2
  = whole_observers w ++ [Observer listener (default noop effect)]
  /\ forall k, slice_observers (subscribe listener effect w).2 k = slice_observers w k.
Proof.
  intros (Hl & Hall & _). unfold subscribe. simpl. split.
  - by apply array_at_push_eq.
  - intros k. unfold slice_observers. simpl.
    destruct (onListeners w !! k) as [a|] eqn:Hk; [| done].
    apply array_at_push_ne. by destruct (Hall _ _ Hk).
Qed.

Lemma on_observers stateSlice callback effect w :
  refs_ok w ->
  slice_observers (on stateSlice callback effect w).2 stateSlice
  = slice_observers w stateSlice ++ [Observer callback (default noop effect)]
  /\ (forall k, k <> stateSlice ->
        slice_observers (on stateSlice callback effect w).2 k = slice_observers w k)
  /\ whole_observers (on stateSlice callback effect w).2 = whole_observers w.
Proof.
  intros (Hl & Hall & Hinj). unfold on.
  destruct (onListeners w !! stateSlice) as [a|] eqn:Hk; simpl.
  - destruct (Hall _ _ Hk) as [Hlt Hne]. split; [| split].
    + unfold slice_observers. simpl. rewrite Hk. by apply array_at_push_eq.
    + intros k Hkne. unfold slice_observers. simpl.
      destruct (onListeners w !! k) as [a'|] eqn:Hk'; [| done].
      apply array_at_push_ne. intros ->. apply Hkne. by eapply Hinj.
    + unfold whole_observers. simpl. apply array_at_push_ne. congruence.
  - split; [| split].
    + unfold slice_observers. simpl. rewrite lookup_insert_eq, Hk.
      rewrite array_at_push_eq by (simpl; rewrite length_app; simpl; lia).
      unfold array_at. simpl. by rewrite list_lookup_middle.
    + intros k Hkne. unfold slice_observers. simpl.
      rewrite lookup_insert_ne by done.
      destruct (onListeners w !! k) as [a'|] eqn:Hk'; [| done].
      destruct (Hall _ _ Hk') as [Hlt _].
      rewrite array_at_push_ne by lia.
      unfold array_at. simpl. by rewrite lookup_app_l.
    + unfold whole_observers. simpl.
      rewrite array_at_push_ne by lia.
      unfold array_at. simpl. by rewrite lookup_app_l.
Qed.

(** X2. A store made by [createStore] is well formed, and stays so
    through [subscribe], [on] and [setState], whatever the callbacks do:
    [listeners] and the arrays of the keys exist and are all different. *)
Theorem wf_preserved w :
  wf w = true ->
  (forall listener effect, wf (subscribe listener effect w).2 = true)
  /\ (forall stateSlice callback effect, wf (on stateSlice callback effect w).2 = true)
  /\ (forall n update overwrite,
        wf (setState (apply_fn n) n update overwrite w).2 = true)
  /\ (forall initial h, wf (createStore initial h) = true).
Proof.
  intros Hw. apply wf_refs_ok in Hw. repeat split; intros; apply wf_refs_ok.
  - apply (refs_ok_basic w _ (basic_subscribe _ _ _) Hw).
  - apply (refs_ok_basic w _ (basic_on _ _ _ _) Hw).
  - by apply refs_ok_setState.
  - apply refs_ok_createStore.
Qed.

Lemma wf_preserved_witness :
  wf (subscribe L None doc_store).2 = true
  /\ wf (on "b" L None doc_store).2 = true
  /\ wf (setState (apply_fn 3) 3 3 VUndefined growing_store).2 = true.
Proof.
  destruct (wf_preserved doc_store) as (Hs & Ho & _); [reflexivity |].
  destruct (wf_preserved growing_store) as (_ & _ & Hr & _); [reflexivity |].
  split; [apply Hs |]. split; [apply Ho | apply Hr].
Defined.

(** X3. [subscribe(listener, effect)] on a well-formed store adds one
    observer at the end of the whole-state observers, with [noop] for a
    missing [effect], also when [listener] is already there; the slice
    observers, the state, the objects and the log stay as they are. *)
Theorem subscribe_appends listener effect w :
  wf w = true ->
  let r := subscribe listener effect w in
  r.1 = Normal
  /\ whole_observers r.2 = whole_observers w ++ [Observer listener (default noop effect)]
  /\ (forall k, slice_observers r.2 k = slice_observers w k)
  /\ getState r.2 = getState w /\ heap r.2 = heap w /\ trace r.2 = trace w.
Proof.
  intros Hw. apply wf_refs_ok in Hw. cbv zeta.
  destruct (subscribe_observers listener effect w Hw) as [Hwhole Hslices].
  by repeat split.
Qed.

Lemma subscribe_appends_witness :
  let r := subscribe W None doc_store in
  r.1 = Normal
  /\ whole_observers r.2 = whole_observers doc_store ++ [Observer W noop]
  /\ (forall k, slice_observers r.2 k = slice_observers doc_store k)
  /\ getState r.2 = getState doc_store /\ heap r.2 = heap doc_store
  /\ trace r.2 = trace doc_store.
Proof. apply (subscribe_appends W None doc_store). reflexivity. Defined.

(** X4. [on(stateSlice, callback, effect)] on a well-formed store adds one
    observer at the end of the slice observers of [stateSlice], creating
    the entry of the key when it has none; the observers of every other key
    and the whole-state observers stay as they are, and so do the state,
    the objects and the log. *)
Theorem on_appends stateSlice callback effect w :
  wf w = true ->
  let r := on stateSlice callback effect w in
  r.1 = Normal
  /\ is_Some (onListeners r.2 !! stateSlice)
  /\ slice_observers r.2 stateSlice
     = slice_observers w stateSlice ++ [Observer callback (default noop effect)]
  /\ (forall k, k <> stateSlice -> slice_observers r.2 k = slice_observers w k)
  /\ whole_observers r.2 = whole_observers w
  /\ getState r.2 = getState w /\ heap r.2 = heap w /\ trace r.2 = trace w.
Proof.
  intros Hw. apply wf_refs_ok in Hw. cbv zeta.
  destruct (on_observers stateSlice callback effect w Hw) as (Hk & Hothers & Hwhole).
  split; [unfold on; by destruct (onListeners w !! stateSlice) |].
  split.
  { unfold on. destruct (onListeners w !! stateSlice) as [a|] eqn:Ha; simpl.
    - by rewrite Ha.
    - by rewrite lookup_insert_eq. }
  split; [done |]. split; [done |]. split; [done |].
  unfold on. by destruct (onListeners w !! stateSlice).
Qed.

Lemma on_appends_witness :
  let r := on "b" W None doc_store in
  r.1 = Normal
  /\ is_Some (onListeners r.2 !! "b")
  /\ slice_observers r.2 "b" = slice_observers doc_store "b" ++ [Observer W noop]
  /\ (forall k, k <> "b" -> slice_observers r.2 k = slice_observers doc_store k)
  /\ whole_observers r.2 = whole_observers doc_store
  /\ getState r.2 = getState doc_store /\ heap r.2 = heap doc_store
  /\ trace r.2 = trace doc_store.
Proof. apply (on_appends "b" W None doc_store). reflexivity. Defined.

(** *** No observer is skipped *)

Lemma since_elem_prefix w w' e :
  (trace w ++ [e]) `prefix_of` trace w' -> e ∈ since (length (trace w)) w'.
Proof.
  intros [k Hk]. unfold since. rewrite Hk, <- app_assoc, drop_app_length. by left.
Qed.

Lemma since_earlier w w1 w' e :
  trace w `prefix_of` trace w1 ->
  trace w1 `prefix_of` trace w' ->
  e ∈ since (length (trace w1)) w' -> e ∈ since (length (trace w)) w'.
Proof.
  intros [k1 H1] [k2 H2]. unfold since. rewrite H2, drop_app_length.
  rewrite H1, <- app_assoc, drop_app_length. intros He.
  apply elem_of_app. by right.
Qed.

Lemma since_later n w w' e :
  trace w `prefix_of` trace w' -> e ∈ since n w -> e ∈ since n w'.
Proof.
  intros [k Hk]. unfold since. rewrite Hk. intros He.
  destruct (decide (n <= length (trace w))) as [Hle|Hgt].
  - rewrite drop_app_le by done. apply elem_of_app. by left.
  - rewrite drop_ge in He by lia. by apply elem_of_nil in He.
Qed.

Lemma notified_earlier sl o w w1 w' :
  trace w `prefix_of` trace w1 ->
  trace w1 `prefix_of` trace w' ->
  notified sl o (length (trace w1)) w' -> notified sl o (length (trace w)) w'.
Proof.
  intros H1 H2 [[a1 Hli] [a2 Hef]]. split; eexists; by eapply since_earlier.
Qed.

Lemma notified_later sl o n w w' :
  trace w `prefix_of` trace w' -> notified sl o n w -> notified sl o n w'.
Proof.
  intros H1 [[a1 Hli] [a2 Hef]]. split; eexists; by eapply since_later.
Qed.

Lemma invoke_logged m sl r f arg w :
  (trace w ++ [Call sl r (fn_name f) arg])
    `prefix_of` trace (invoke (apply_fn m) sl r f arg w).2.
Proof.
  unfold invoke, seq, log.
  by destruct (grows_apply m f arg (add_event (Call sl r (fn_name f) arg) w))
    as (_ & _ & _ & _ & Ht).
Qed.

Lemma grows_trace w w' : grows w w' -> trace w `prefix_of` trace w'.
Proof. by intros (_ & _ & _ & _ & Ht). Qed.

Lemma grows_lookup w w' a i o :
  grows w w' -> array_at w a !! i = Some o -> array_at w' a !! i = Some o.
Proof. intros (_ & _ & Ha & _) Ho. by eapply prefix_lookup_Some. Qed.

(** One iteration of either loop: both callbacks of the element are
    called, and whatever comes later is kept. *)
Lemma iteration_notified m sl (o o1 : observer) arg arg1 w w1 w2 w' :
  invoke (apply_fn m) sl OnChange (_li o) arg w = (Normal, w1) ->
  invoke (apply_fn m) sl OnEffect (_ef o1) arg1 w1 = (Normal, w2) ->
  o1 = o ->
  grows w2 w' ->
  notified sl o (length (trace w)) w'.
Proof.
  intros E1 E2 -> G3.
  pose proof (invoke_logged m sl OnChange (_li o) arg w) as L1.
  pose proof (invoke_logged m sl OnEffect (_ef o) arg1 w1) as L2.
  pose proof (grows_invoke m sl OnChange (_li o) arg w) as G1.
  pose proof (grows_invoke m sl OnEffect (_ef o) arg1 w1) as G2.
  rewrite E1 in L1, G1. rewrite E2 in L2, G2. simpl in *.
  apply grows_trace in G1, G2, G3.
  split; eexists.
  - apply since_elem_prefix. etrans; [exact L1 |]. by etrans.
  - eapply since_earlier; [exact G1 | by etrans |].
    apply since_elem_prefix. by etrans.
Qed.

Lemma notify_listeners_visits m n a : forall i w w',
  notify_listeners (apply_fn m) n a i w = (Normal, w') ->
  forall j o, i <= j -> array_at w' a !! j = Some o ->
  notified (Whole j) o (length (trace w)) w'.
Proof.
  induction n as [|n IH]; intros i w w' Hrun j o Hij Ho; simpl in Hrun;
    [discriminate |].
  destruct (array_at w a !! i) as [oi|] eqn:Hoi.
  - unfold seq at 1 in Hrun.
    destruct (invoke (apply_fn m) (Whole i) OnChange (_li oi) (state w) w)
      as [[| |] w1] eqn:E1; try discriminate.
    unfold seq at 1 in Hrun.
    pose proof (grows_invoke m (Whole i) OnChange (_li oi) (state w) w) as G1.
    rewrite E1 in G1. simpl in G1.
    rewrite (grows_lookup _ _ _ _ _ G1 Hoi) in Hrun.
    destruct (invoke (apply_fn m) (Whole i) OnEffect (_ef oi) (state w1) w1)
      as [[| |] w2] eqn:E2; try discriminate.
    pose proof (grows_invoke m (Whole i) OnEffect (_ef oi) (state w1) w1) as G2.
    rewrite E2 in G2. simpl in G2.
    pose proof (grows_notify_listeners m n a (S i) w2) as G3.
    rewrite Hrun in G3. simpl in G3.
    destruct (decide (j = i)) as [->|Hne].
    + pose proof (grows_lookup _ _ _ _ _ (grows_trans _ _ _ G1 (grows_trans _ _ _ G2 G3)) Hoi)
        as Ho'.
      rewrite Ho in Ho'. inversion Ho'; subst oi.
      by eapply iteration_notified.
    + apply notified_earlier with (w1 := w2).
      * apply grows_trace. by eapply grows_trans.
      * by apply grows_trace.
      * eapply IH; [done | lia | done].
  - inversion Hrun; subst w'. apply lookup_ge_None in Hoi.
    apply lookup_lt_Some in Ho. lia.
Qed.

Lemma notify_slice_visits m n key a : forall k w w',
  notify_slice (apply_fn m) n key a k w = (Normal, w') ->
  forall j o, k <= j -> array_at w' a !! j = Some o ->
  notified (Slice key j) o (length (trace w)) w'.
Proof.
  induction n as [|n IH]; intros k w w' Hrun j o Hij Ho; simpl in Hrun;
    [discriminate |].
  destruct (array_at w a !! k) as [oi|] eqn:Hoi.
  - unfold seq at 1 in Hrun.
    destruct (invoke (apply_fn m) (Slice key k) OnChange (_li oi)
                     (get_prop (heap w) (state w) key) w)
      as [[| |] w1] eqn:E1; try discriminate.
    unfold seq at 1 in Hrun.
    pose proof (grows_invoke m (Slice key k) OnChange (_li oi)
                  (get_prop (heap w) (state w) key) w) as G1.
    rewrite E1 in G1. simpl in G1.
    rewrite (grows_lookup _ _ _ _ _ G1 Hoi) in Hrun.
    destruct (invoke (apply_fn m) (Slice key k) OnEffect (_ef oi)
                     (get_prop (heap w1) (state w1) key) w1)
      as [[| |] w2] eqn:E2; try discriminate.
    pose proof (grows_invoke m (Slice key k) OnEffect (_ef oi)
                  (get_prop (heap w1) (state w1) key) w1) as G2.
    rewrite E2 in G2. simpl in G2.
    pose proof (grows_notify_slice m n key a (S k) w2) as G3.
    rewrite Hrun in G3. simpl in G3.
    destruct (decide (j = k)) as [->|Hne].
    + pose proof (grows_lookup _ _ _ _ _ (grows_trans _ _ _ G1 (grows_trans _ _ _ G2 G3)) Hoi)
        as Ho'.
      rewrite Ho in Ho'. inversion Ho'; subst oi.
      by eapply iteration_notified.
    + apply notified_earlier with (w1 := w2).
      * apply grows_trace. by eapply grows_trans.
      * by apply grows_trace.
      * eapply IH; [done | lia | done].
  - inversion Hrun; subst w'. apply lookup_ge_None in Hoi.
    apply lookup_lt_Some in Ho. lia.
Qed.

Lemma notify_slices_visits m n ks : forall w w',
  notify_slices (apply_fn m) n ks w = (Normal, w') ->
  forall k j o, k ∈ ks -> slice_observers w k !! j = Some o ->
  notified (Slice k j) o (length (trace w)) w'.
Proof.
  induction ks as [|key rest IH]; intros w w' Hrun k j o Hk Ho.
  - by apply elem_of_nil in Hk.
  - simpl in Hrun. unfold seq at 1 in Hrun.
    pose proof (grows_notify_slices m n rest) as Grest.
    destruct (onListeners w !! key) as [a|] eqn:Ha.
    + destruct (notify_slice (apply_fn m) n key a 0 w) as [[| |] w1] eqn:E1;
        try discriminate.
      pose proof (grows_notify_slice m n key a 0 w) as G1.
      rewrite E1 in G1. simpl in G1.
      specialize (Grest w1). rewrite Hrun in Grest. simpl in Grest.
      destruct (decide (k = key)) as [->|Hne].
      * apply notified_later with (w := w1); [by apply grows_trace |].
        eapply notify_slice_visits; [exact E1 | lia |].
        unfold slice_observers in Ho. rewrite Ha in Ho.
        by eapply grows_lookup.
      * apply elem_of_cons in Hk as [Hk|Hk]; [done |].
        apply notified_earlier with (w1 := w1);
          [by apply grows_trace | by apply grows_trace |].
        eapply IH; [exact Hrun | done |].
        eapply prefix_lookup_Some; [exact Ho | by apply grows_slice_observers].
    + unfold skip in Hrun.
      specialize (Grest w). rewrite Hrun in Grest. simpl in Grest.
      destruct (decide (k = key)) as [->|Hne].
      * unfold slice_observers in Ho. by rewrite Ha in Ho.
      * apply elem_of_cons in Hk as [Hk|Hk]; [done |].
        by eapply IH.
Qed.

(** X5. When [setState] returns normally, whatever the callbacks did, no
    observer that was registered before the call has been skipped: both
    callbacks of every whole-state observer, and of every slice observer
    of a key of the update, have been called at the observer's index. *)
Theorem setState_notifies_all n w update overwrite (U : list (string * value)) w' :
  heap w !! update = Some U ->
  setState (apply_fn n) n update overwrite w = (Normal, w') ->
  (forall j o, whole_observers w !! j = Some o ->
     notified (Whole j) o (length (trace w)) w')
  /\ (forall k j o, k ∈ obj_keys U -> slice_observers w k !! j = Some o ->
        notified (Slice k j) o (length (trace w)) w').
Proof.
  intros HU Hrun. unfold setState in Hrun.
  erewrite seq_normal in Hrun; [| reflexivity].
  unfold seq at 1 in Hrun. cbv zeta in Hrun.
  set (w1 := update_state update overwrite w) in *.
  destruct (update_state_frame w update overwrite) as (Ha1 & Hl1 & Ho1 & Ht1).
  destruct (update_state_observers w update overwrite) as (Hwo & Hso).
  fold w1 in Ha1, Hl1, Ho1, Ht1, Hwo, Hso.
  destruct (notify_listeners (apply_fn n) n (listeners w1) 0 w1)
    as [[| |] w2] eqn:E1; try discriminate.
  pose proof (grows_notify_listeners n n (listeners w1) 0 w1) as G1.
  rewrite E1 in G1. simpl in G1.
  pose proof (grows_notify_slices n n (obj_keys (heap_obj (heap w2) update)) w2) as G2.
  rewrite Hrun in G2. simpl in G2.
  assert (HU2 : heap_obj (heap w2) update = U).
  { unfold heap_obj. destruct G1 as (_ & _ & _ & Hh & _).
    erewrite prefix_lookup_Some; [done | | exact Hh].
    eapply prefix_lookup_Some; [exact HU | apply update_state_heap]. }
  rewrite HU2 in Hrun. rewrite <- Ht1. split.
  - intros j o Ho.
    apply notified_later with (w := w2); [by apply grows_trace |].
    eapply notify_listeners_visits; [exact E1 | lia |].
    eapply grows_lookup; [exact G1 |]. unfold whole_observers in Hwo, Ho.
    by rewrite Hwo.
  - intros k j o Hk Ho.
    apply notified_earlier with (w1 := w2);
      [by apply grows_trace | by apply grows_trace |].
    eapply notify_slices_visits; [exact Hrun | done |].
    eapply prefix_lookup_Some; [| by apply grows_slice_observers].
    by rewrite Hso.
Qed.

Lemma setState_notifies_all_witness :
  (forall j o, whole_observers doc_store !! j = Some o ->
     notified (Whole j) o 0 (setState (apply_fn 2) 2 1 VUndefined doc_store).2)
  /\ (forall k j o, k ∈ ["a"] -> slice_observers doc_store k !! j = Some o ->
        notified (Slice k j) o 0 (setState (apply_fn 2) 2 1 VUndefined doc_store).2).
Proof.
  apply (setState_notifies_all 2 doc_store 1 VUndefined [("a", VNum 1)]).
  - reflexivity.
  - vm_compute. reflexivity.
Defined.

(** X6. The first loop of [setState] reads its array as it is at each
    iteration: when the loop returns normally, every observer that is in
    the array at that moment has been called by the loop, those that were
    pushed while it ran included. *)
Theorem notify_listeners_live m n currentListeners w w' :
  notify_listeners (apply_fn m) n currentListeners 0 w = (Normal, w') ->
  forall j o, array_at w' currentListeners !! j = Some o ->
  notified (Whole j) o (length (trace w)) w'.
Proof.
  intros Hrun j o Ho. eapply notify_listeners_visits; [exact Hrun | lia | done].
Qed.

(** The observer ["N"] is pushed by ["W"] during the loop, and called. *)
Lemma notify_listeners_live_witness :
  array_at growing_store 0 = [Observer (Fn "W" [CSubscribe (Fn "N" []) None]) noop]
  /\ notified (Whole 1) (Observer (Fn "N" []) noop) 0
       (notify_listeners (apply_fn 3) 3 0 0 growing_store).2.
Proof.
  split; [reflexivity |].
  apply (notify_listeners_live 3 3 0 growing_store
           (notify_listeners (apply_fn 3) 3 0 0 growing_store).2).
  - vm_compute. reflexivity.
  - reflexivity.
Defined.

(** *** What the slice observers are given *)

Lemma flat_map_ext_elem {A B} (f g : A -> list B) (l : list A) :
  (forall x, x ∈ l -> f x = g x) -> flat_map f l = flat_map g l.
Proof.
  induction l as [|x l IH]; intros Hfg; simpl; [done |].
  rewrite Hfg by (by left). rewrite IH; [done |].
  intros y Hy. apply Hfg. by right.
Qed.

(** The state assigned by [setState] has the update's value at every key
    of the update, for a merge as for a replacement. *)
Lemma update_state_prop w update overwrite (U : list (string * value)) k :
  heap w !! update = Some U ->
  k ∈ obj_keys U ->
  get_prop (heap (update_state update overwrite w))
           (state (update_state update overwrite w)) k
  = default VUndefined (obj_get U k).
Proof.
  intros HU Hk. destruct (truthy overwrite) eqn:Ht.
  - rewrite update_state_overwrite by done. unfold get_prop. simpl.
    unfold heap_obj. by rewrite HU.
  - rewrite (update_state_merge _ _ _ U) by done. unfold get_prop. simpl.
    unfold heap_obj. rewrite list_lookup_middle by done. simpl.
    rewrite obj_get_copy. destruct (obj_get U k) eqn:E; [done |].
    apply obj_get_keys in E. contradiction.
Qed.

(** X7. On a store whose observers only read the store, [setState] gives
    every slice observer of a key of the update the update's own value at
    that key, for a merge as for a replacement, and it leaves the
    registrations as they were. *)
Theorem setState_slice_values n w update overwrite (U : list (string * value)) :
  heap w !! update = Some U ->
  observers_all inert (obj_keys U) w = true ->
  fuel_for (obj_keys U) w <= n ->
  exists w',
    setState (apply_fn n) n update overwrite w = (Normal, w')
    /\ since (length (trace w)) w'
       = whole_events (getState w') (whole_observers w)
         ++ flat_map (fun k => list_events (Slice k)
                                 (default VUndefined (obj_get U k))
                                 (getState w') 0 (slice_observers w k))
                     (obj_keys U)
    /\ arrays w' = arrays w
    /\ listeners w' = listeners w
    /\ onListeners w' = onListeners w.
Proof.
  intros HU Hw Hn. eexists. split; [by eapply setState_inert |].
  destruct (update_state_frame w update overwrite) as (Ha & Hl & Ho & Ht).
  simpl. split; [| done].
  rewrite <- Ht, since_add_events. f_equal. unfold slice_events.
  apply flat_map_ext_elem. intros k Hk. unfold getState.
  by rewrite (update_state_prop _ _ _ U).
Qed.

(** [L] is given [1] by [setState({a: 1})]. *)
Lemma setState_slice_values_witness :
  exists w',
    setState (apply_fn 2) 2 1 VUndefined doc_store = (Normal, w')
    /\ since 0 w'
       = whole_events (getState w') (whole_observers doc_store)
         ++ flat_map (fun k => list_events (Slice k)
                                 (default VUndefined (obj_get [("a", VNum 1)] k))
                                 (getState w') 0 (slice_observers doc_store k))
                     ["a"]
    /\ arrays w' = arrays doc_store
    /\ listeners w' = listeners doc_store
    /\ onListeners w' = onListeners doc_store.
Proof.
  apply (setState_slice_values 2 doc_store 1 VUndefined [("a", VNum 1)]).
  - reflexivity.
  - reflexivity.
  - vm_compute. lia.
Defined.

(** *** The two phases do not interleave *)

















(** *** Re-entrant calls are not guarded *)

Lemma seq_starved (a b : world -> completion * world) w :
  (a w).1 = Starved -> ((a ;; b) w).1 = Starved.
Proof. unfold seq. by destruct (a w) as [[| |] w1]. Qed.

Lemma notify_listeners_reentrant n' i o :
  reenters (_li o) = true ->
  (forall w update overwrite,
     forallb (obs_all inert) (take i (whole_observers w)) = true ->
     whole_observers w !! i = Some o ->
     (setState (apply_fn n') n' update overwrite w).1 = Starved) ->
  forall fuel j w,
    j <= i ->
    forallb (obs_all inert) (take i (whole_observers w)) = true ->
    whole_observers w !! i = Some o ->
    (notify_listeners (apply_fn (S n')) fuel (listeners w) j w).1 = Starved.
Proof.
  intros Hre IH. induction fuel as [|fuel IHf]; intros j w Hj Hpre Hi; [done |].
  simpl notify_listeners. cbv beta.
  destruct (decide (j = i)) as [->|Hne].
  - unfold whole_observers in Hi. rewrite Hi.
    apply seq_starved. unfold invoke. unfold seq, log. simpl.
    unfold reenters in Hre.
    destruct (fn_body (_li o)) as [|[u ow|u ow| | | |] cs]; try discriminate; simpl.
    + apply seq_starved. by apply IH.
    + apply seq_starved. by apply IH.
  - assert (Hlt : j < i) by lia.
    destruct (whole_observers w !! j) as [oj|] eqn:Hoj.
    2:{ apply lookup_ge_None in Hoj. apply lookup_lt_Some in Hi. lia. }
    assert (Hin : obs_all inert oj = true).
    { eapply forallb_lookup; [exact Hpre |]. by rewrite lookup_take_lt. }
    apply andb_prop in Hin as [Hli Hef].
    unfold whole_observers in Hoj. rewrite Hoj.
    erewrite seq_normal; [| by apply invoke_inert].
    erewrite seq_normal;
      [| cbv beta; rewrite array_at_add_events, Hoj; by apply invoke_inert].
    rewrite !add_events_app.
    apply (IHf (S j) (add_events _ w)); [lia | done | done].
Qed.

Lemma setState_reentrant n : forall w update overwrite i o,
  forallb (obs_all inert) (take i (whole_observers w)) = true ->
  whole_observers w !! i = Some o ->
  reenters (_li o) = true ->
  (setState (apply_fn n) n update overwrite w).1 = Starved.
Proof.
  induction n as [|n' IH]; intros w update overwrite i o Hpre Hi Hre.
  - unfold setState. erewrite seq_normal; [| reflexivity]. by apply seq_starved.
  - unfold setState. erewrite seq_normal; [| reflexivity].
    apply seq_starved. cbv zeta.
    destruct (update_state_observers w update overwrite) as (Hwo & _).
    apply (notify_listeners_reentrant n' i o); try done; try lia.
    + intros w0 u0 ow0 Hpre0 Hi0. by eapply IH.
    + by rewrite Hwo.
    + by rewrite Hwo.
Qed.

(** X9. Nothing stops a callback from calling [setState] again: when the
    onChange of a whole-state observer starts by calling [setState], and
    the observers before it only read the store, no [setState] on that
    store ever returns, with any update: every call reaches that observer
    again, one level deeper. *)
Theorem setState_unbounded_recursion n update overwrite w i o :
  forallb (obs_all inert) (take i (whole_observers w)) = true ->
  whole_observers w !! i = Some o ->
  reenters (_li o) = true ->
  (setState (apply_fn n) n update overwrite w).1 = Starved.
Proof. intros Hpre Hi Hre. by eapply setState_reentrant. Qed.

(** [setState({a: 1})] with a thousand levels of nesting. *)
Lemma setState_unbounded_recursion_witness :
  (setState (apply_fn 1000) 1000 1 VUndefined looping_store).1 = Starved.
Proof.
  apply (setState_unbounded_recursion 1000 1 VUndefined looping_store 1
           (Observer (Fn "R" [CSetStateNew [("b", VNum 2)] VUndefined]) noop));
    reflexivity.
Defined.

(** *** Registration, then [setState] *)

Lemma notify_slices_none call n ks w :
  (forall k, k ∈ ks -> onListeners w !! k = None) ->
  notify_slices call n ks w = (Normal, w).
Proof.
  induction ks as [|k ks IH]; intros Hnone; [done |].
  simpl. unfold seq. rewrite Hnone by (by left). simpl.
  apply IH. intros k' Hk'. apply Hnone. by right.
Qed.

Lemma slice_events_ext h s (f g : string -> list observer) (ks : list string) :
  (forall k, f k = g k) -> slice_events h s f ks = slice_events h s g ks.
Proof.
  intros Hfg. unfold slice_events. apply flat_map_ext_elem.
  intros k _. by rewrite Hfg.
Qed.

Lemma obs_all_inert_default f effect :
  inert f = true -> from_option inert true effect = true ->
  obs_all inert (Observer f (default noop effect)) = true.
Proof. intros Hf He. by apply obs_all_default. Qed.

(** X10. A store made by [createStore] has no observer, and shares a
    truthy initial state with its caller instead of copying it; its first
    [setState] calls nothing and returns, whatever the update. *)
Theorem createStore_no_observers initial (h : list (list (string * value)))
    n update overwrite :
  1 <= n ->
  let w := createStore initial h in
  let r := setState (apply_fn n) n update overwrite w in
  whole_observers w = []
  /\ (forall k, slice_observers w k = [])
  /\ (truthy initial = true -> getState w = initial /\ heap w = h)
  /\ r.1 = Normal
  /\ trace r.2 = [].
Proof.
  intros Hn. cbv zeta.
  assert (Hw : whole_observers (createStore initial h) = []
               /\ onListeners (createStore initial h) = ∅
               /\ trace (createStore initial h) = []).
  { unfold createStore. by destruct (truthy initial). }
  destruct Hw as (Hwo & Hon & Ht).
  split; [done |]. split.
  { intros k. unfold slice_observers. by rewrite Hon, lookup_empty. }
  split.
  { intros Htr. unfold createStore. by rewrite Htr. }
  destruct n as [|n]; [lia |].
  destruct (update_state_frame (createStore initial h) update overwrite)
    as (Ha1 & Hl1 & Ho1 & Ht1).
  destruct (update_state_observers (createStore initial h) update overwrite)
    as (Hwo1 & _).
  unfold setState. erewrite seq_normal; [| reflexivity].
  erewrite seq_normal.
  2:{ cbv zeta. simpl notify_listeners. cbv beta.
      unfold whole_observers in Hwo1, Hwo. by rewrite Hwo1, Hwo. }
  cbv zeta. rewrite notify_slices_none.
  - simpl. split; [done |]. by rewrite Ht1.
  - intros k _. by rewrite Ho1, Hon, lookup_empty.
Qed.

Lemma createStore_no_observers_witness :
  let w := createStore (VRef 0) doc_heap in
  let r := setState (apply_fn 1) 1 1 VUndefined w in
  whole_observers w = []
  /\ (forall k, slice_observers w k = [])
  /\ (truthy (VRef 0) = true -> getState w = VRef 0 /\ heap w = doc_heap)
  /\ r.1 = Normal
  /\ trace r.2 = [].
Proof. apply (createStore_no_observers (VRef 0) doc_heap 1 1 VUndefined). lia. Defined.

(** X11. An observer registered with [subscribe] is called by the next
    [setState], after the whole-state observers that were there and before
    the slice observers (all observers only read the store). *)
Theorem subscribe_then_setState listener effect n w update overwrite
    (U : list (string * value)) :
  wf w = true ->
  inert listener = true ->
  from_option inert true effect = true ->
  heap w !! update = Some U ->
  observers_all inert (obj_keys U) w = true ->
  fuel_for (obj_keys U) (subscribe listener effect w).2 <= n ->
  exists w',
    (subscribe listener effect ;; setState (apply_fn n) n update overwrite) w
    = (Normal, w')
    /\ since (length (trace w)) w'
       = whole_events (getState w')
           (whole_observers w ++ [Observer listener (default noop effect)])
         ++ slice_events (heap w') (getState w') (slice_observers w) (obj_keys U).
Proof.
  intros Hwf Hli Hef HU Hw Hn. apply wf_refs_ok in Hwf.
  destruct (subscribe_observers listener effect w Hwf) as [Hwo Hso].
  set (w0 := (subscribe listener effect w).2) in *.
  assert (Hw0 : observers_all inert (obj_keys U) w0 = true).
  { apply andb_prop in Hw as [Hl Hs]. apply andb_true_intro. split.
    - rewrite Hwo, forallb_app, Hl. simpl. by rewrite obs_all_inert_default.
    - apply forallb_forall. intros k Hk. rewrite Hso.
      rewrite forallb_forall in Hs. by apply Hs. }
  pose proof (setState_inert n w0 update overwrite U HU Hw0 Hn) as Hrun.
  cbv zeta in Hrun. eexists. split.
  - erewrite seq_normal; [exact Hrun | reflexivity].
  - destruct (update_state_frame w0 update overwrite) as (_ & _ & _ & Ht).
    change (trace w) with (trace w0). rewrite <- Ht, since_add_events.
    simpl. rewrite Hwo. f_equal. by apply slice_events_ext.
Qed.

Lemma subscribe_then_setState_witness :
  exists w',
    (subscribe L None ;; setState (apply_fn 3) 3 1 VUndefined) doc_store
    = (Normal, w')
    /\ since 0 w'
       = whole_events (getState w') (whole_observers doc_store ++ [Observer L noop])
         ++ slice_events (heap w') (getState w') (slice_observers doc_store) ["a"].
Proof.
  apply (subscribe_then_setState L None 3 doc_store 1 VUndefined [("a", VNum 1)]);
    first [reflexivity | vm_compute; lia].
Defined.

(** X12. An observer registered with [on] for a key is called by the next
    [setState] whose update has that key, after the observers the key
    already had, and it is given the update's value at the key; the
    observers of the other keys are called as before (all observers only
    read the store). *)
Theorem on_then_setState stateSlice callback effect n w update overwrite
    (U : list (string * value)) :
  wf w = true ->
  inert callback = true ->
  from_option inert true effect = true ->
  heap w !! update = Some U ->
  observers_all inert (obj_keys U) w = true ->
  fuel_for (obj_keys U) (on stateSlice callback effect w).2 <= n ->
  exists w',
    (on stateSlice callback effect ;; setState (apply_fn n) n update overwrite) w
    = (Normal, w')
    /\ since (length (trace w)) w'
       = whole_events (getState w') (whole_observers w)
         ++ flat_map
              (fun k => list_events (Slice k) (default VUndefined (obj_get U k))
                          (getState w') 0
                          (if decide (k = stateSlice)
                           then slice_observers w k
                                ++ [Observer callback (default noop effect)]
                           else slice_observers w k))
              (obj_keys U).
Proof.
  intros Hwf Hcb Hef HU Hw Hn. apply wf_refs_ok in Hwf.
  destruct (on_observers stateSlice callback effect w Hwf) as (Hk & Hothers & Hwo).
  assert (Hon : (on stateSlice callback effect w).1 = Normal
                /\ heap (on stateSlice callback effect w).2 = heap w
                /\ trace (on stateSlice callback effect w).2 = trace w).
  { unfold on. by destruct (onListeners w !! stateSlice). }
  destruct Hon as (Hc & Hh & Ht0).
  set (w0 := (on stateSlice callback effect w).2) in *.
  assert (Hso : forall k, slice_observers w0 k
                          = if decide (k = stateSlice)
                            then slice_observers w k
                                 ++ [Observer callback (default noop effect)]
                            else slice_observers w k).
  { intros k. destruct (decide (k = stateSlice)) as [->|Hne]; [done | by apply Hothers]. }
  assert (Hw0 : observers_all inert (obj_keys U) w0 = true).
  { apply andb_prop in Hw as [Hl Hs]. apply andb_true_intro. split.
    - by rewrite Hwo.
    - apply forallb_forall. intros k Hkk. rewrite Hso.
      rewrite forallb_forall in Hs. specialize (Hs k Hkk). simpl in Hs.
      destruct (decide (k = stateSlice)); [| done].
      rewrite forallb_app, Hs. simpl. by rewrite obs_all_inert_default. }
  assert (HU0 : heap w0 !! update = Some U) by (by rewrite Hh).
  pose proof (setState_inert n w0 update overwrite U HU0 Hw0 Hn) as Hrun.
  cbv zeta in Hrun. eexists. split.
  - unfold seq. fold w0. destruct (on stateSlice callback effect w) as [c w0'] eqn:E.
    simpl in Hc. subst c. exact Hrun.
  - destruct (update_state_frame w0 update overwrite) as (_ & _ & _ & Ht).
    rewrite <- Ht0, <- Ht, since_add_events.
    simpl. rewrite Hwo. f_equal. unfold slice_events.
    apply flat_map_ext_elem. intros k Hkk. unfold getState.
    by rewrite (update_state_prop _ _ _ U), Hso.
Qed.

Lemma on_then_setState_witness :
  exists w',
    (on "a" W None ;; setState (apply_fn 3) 3 1 VUndefined) doc_store
    = (Normal, w')
    /\ since 0 w'
       = whole_events (getState w') (whole_observers doc_store)
         ++ flat_map
              (fun k => list_events (Slice k)
                          (default VUndefined (obj_get [("a", VNum 1)] k))
                          (getState w') 0
                          (if decide (k = "a")
                           then slice_observers doc_store k ++ [Observer W noop]
                           else slice_observers doc_store k))
              ["a"].
Proof.
  apply (on_then_setState "a" W None 3 doc_store 1 VUndefined [("a", VNum 1)]);
    first [reflexivity | vm_compute; lia].
Defined.

(** *** The second loop reads its array as it is, too *)

(** X13. The loop over the slice observers of a key reads its array as it
    is at each iteration: when it returns normally, every observer that is
    in the array at that moment has been called by the loop, those that
    were pushed by [on] while it ran included. *)
Theorem notify_slice_live m n _key listeners0 w w' :
  notify_slice (apply_fn m) n _key listeners0 0 w = (Normal, w') ->
  forall j o, array_at w' listeners0 !! j = Some o ->
  notified (Slice _key j) o (length (trace w)) w'.
Proof.
  intros Hrun j o Ho. eapply notify_slice_visits; [exact Hrun | lia | done].
Qed.

(** The observer ["N"] is pushed by ["L"] during the loop, and called. *)
Lemma notify_slice_live_witness :
  slice_observers growing_slice_store "a"
  = [Observer (Fn "L" [COn "a" (Fn "N" []) None]) noop]
  /\ notified (Slice "a" 1) (Observer (Fn "N" []) noop) 0
       (notify_slice (apply_fn 3) 3 "a" 1 0 growing_slice_store).2.
Proof.
  split; [reflexivity |].
  apply (notify_slice_live 3 3 "a" 1 growing_slice_store
           (notify_slice (apply_fn 3) 3 "a" 1 0 growing_slice_store).2).
  - vm_compute. reflexivity.
  - reflexivity.
Defined.

(** *** Where a throwing observer stops the pass *)

Lemma notify_listeners_throw m i o v cs a :
  fn_body (_li o) = CThrow v :: cs ->
  forall fuel j w,
    j <= i -> i - j < fuel ->
    forallb (obs_all inert) (take i (array_at w a)) = true ->
    array_at w a !! i = Some o ->
    notify_listeners (apply_fn (S m)) fuel a j w
    = (Throw v,
       add_events (list_events Whole (state w) (state w) j
                     (drop j (take i (array_at w a)))
                   ++ [Call (Whole i) OnChange (fn_name (_li o)) (state w); Threw v]) w).
Proof.
  intros Hbody. induction fuel as [|fuel IHf]; intros j w Hj Hfuel Hpre Hi; [lia |].
  simpl notify_listeners. cbv beta.
  destruct (decide (j = i)) as [->|Hne].
  - rewrite Hi. rewrite drop_ge by (rewrite length_take; lia). simpl.
    unfold seq, invoke, log, seq. simpl. rewrite Hbody. simpl.
    unfold seq, throw. by rewrite !add_event_events, add_events_app.
  - assert (Hlt : j < i) by lia.
    assert (Hjl : take i (array_at w a) !! j = array_at w a !! j)
      by (by apply lookup_take_lt).
    destruct (array_at w a !! j) as [oj|] eqn:Hoj.
    2:{ apply lookup_ge_None in Hoj. apply lookup_lt_Some in Hi. lia. }
    assert (Hin : obs_all inert oj = true) by (by eapply forallb_lookup).
    apply andb_prop in Hin as [Hli Hef].
    erewrite seq_normal; [| by apply invoke_inert].
    erewrite seq_normal;
      [| cbv beta; rewrite array_at_add_events, Hoj; by apply invoke_inert].
    rewrite !add_events_app.
    rewrite (IHf (S j) (add_events _ w)); [| lia | lia | done | done].
    rewrite add_events_app. rewrite (drop_S _ _ _ Hjl). simpl.
    unfold obs_events. do 2 f_equal.
    by rewrite <- !app_assoc.
Qed.

(** X14. When the onChange of the whole-state observer at index [i]
    throws as soon as it is called, and the observers before it only read
    the store, [setState] ends with that exception after calling exactly
    the first [i] observers and that onChange: no later observer of
    either kind is called, and the state stays the one the call assigned. *)
Theorem setState_throw_at n w update overwrite i o v cs :
  forallb (obs_all inert) (take i (whole_observers w)) = true ->
  whole_observers w !! i = Some o ->
  fn_body (_li o) = CThrow v :: cs ->
  i < n ->
  exists w',
    setState (apply_fn n) n update overwrite w = (Throw v, w')
    /\ since (length (trace w)) w'
       = whole_events (getState w') (take i (whole_observers w))
         ++ [Call (Whole i) OnChange (fn_name (_li o)) (getState w'); Threw v]
    /\ getState w' = getState (update_state update overwrite w).
Proof.
  intros Hpre Hi Hbody Hn. destruct n as [|m]; [lia |].
  destruct (update_state_frame w update overwrite) as (_ & _ & _ & Ht).
  destruct (update_state_observers w update overwrite) as (Hwo & _).
  set (w1 := update_state update overwrite w) in *.
  unfold whole_observers in Hwo.
  pose proof (notify_listeners_throw m i o v cs (listeners w1) Hbody (S m) 0 w1) as Hrun.
  rewrite Hwo, drop_0 in Hrun.
  specialize (Hrun ltac:(lia) ltac:(lia) Hpre Hi).
  eexists. split.
  - unfold setState. erewrite seq_normal; [| reflexivity]. fold w1.
    unfold seq at 1. cbv zeta. by rewrite Hrun.
  - simpl. split; [| done]. by rewrite <- Ht, since_add_events.
Qed.

(** The second of three whole-state observers throws ["boom"]. *)
Lemma setState_throw_at_witness :
  exists w',
    setState (apply_fn 4) 4 1 VUndefined faulty_store = (Throw (VStr "boom"), w')
    /\ since 0 w'
       = whole_events (getState w') (take 1 (whole_observers faulty_store))
         ++ [Call (Whole 1) OnChange "B" (getState w'); Threw (VStr "boom")]
    /\ getState w' = getState (update_state 1 VUndefined faulty_store).
Proof.
  apply (setState_throw_at 4 faulty_store 1 VUndefined 1
           (Observer (Fn "B" [CThrow (VStr "boom")]) noop) (VStr "boom") []);
    first [reflexivity | lia].
Defined.
